(** * A shallow embedding of the stdout parsers of git-util-native (src/src/lib.rs)

    Strings are modelled as [String.string] (ASCII text).  Every function
    returns an [outcome]: [Ok] for a Rust [Ok], [Err] for a Rust [Err], and
    [Panic] where the Rust code aborts (index out of range, [unwrap] on
    [None] or [Err]). *)

From Stdlib Require Import String Ascii ZArith List Bool Lia Permutation.
Import ListNotations.
Open Scope string_scope.

Inductive outcome (A : Type) : Type :=
| Ok (a : A)
| Err (msg : string)
| Panic.
Arguments Ok {A} a.
Arguments Err {A} msg.
Arguments Panic {A}.

Definition bind {A B} (m : outcome A) (f : A -> outcome B) : outcome B :=
  match m with
  | Ok a => f a
  | Err e => Err e
  | Panic => Panic
  end.

Notation "x <- m ;; k" := (bind m (fun x => k))
  (at level 61, m at next level, right associativity).

(** ** String primitives of Rust's [str] *)

Definition PARAM_INTERVAL : string := "<<PARAM_INTERVAL>>".
Definition COMMIT_INETRVAL : string := "<<COMMIT_INETRVAL>>".

Definition NL : string := String (ascii_of_nat 10) "".
Definition TAB : string := String (ascii_of_nat 9) "".

(** [char::is_whitespace] restricted to ASCII: \t \n \x0B \x0C \r and space. *)
Definition is_ws (c : ascii) : bool :=
  let n := nat_of_ascii c in
  (Nat.leb 9 n && Nat.leb n 13) || Nat.eqb n 32.

(** [u8::is_ascii_whitespace]: \t \n \x0C \r and space (not \x0B). *)
Definition is_ascii_ws (c : ascii) : bool :=
  let n := nat_of_ascii c in
  Nat.eqb n 9 || Nat.eqb n 10 || Nat.eqb n 12 || Nat.eqb n 13 || Nat.eqb n 32.

Fixpoint trim_start (s : string) : string :=
  match s with
  | EmptyString => EmptyString
  | String c s' => if is_ws c then trim_start s' else s
  end.

Fixpoint rev_str (s : string) : string :=
  match s with
  | EmptyString => EmptyString
  | String c s' => rev_str s' ++ String c EmptyString
  end.

Definition trim_end (s : string) : string := rev_str (trim_start (rev_str s)).

(** [str::trim] *)
Definition trim (s : string) : string := trim_end (trim_start s).

(** [&s[n..]] *)
Fixpoint str_drop (n : nat) (s : string) : string :=
  match n, s with
  | O, _ => s
  | S n', String _ s' => str_drop n' s'
  | S _, EmptyString => EmptyString
  end.

(** [str::trim_start_matches] for a non-empty pattern: strip every leading
    copy of [pat]. *)
Fixpoint strip_prefixes_fuel (n : nat) (pat s : string) : string :=
  match n with
  | O => s
  | S n' =>
      if (negb (String.eqb pat "") && String.prefix pat s)%bool
      then strip_prefixes_fuel n' pat (str_drop (String.length pat) s)
      else s
  end.

Definition trim_start_matches (s pat : string) : string :=
  strip_prefixes_fuel (S (String.length s)) pat s.

(** [str::trim_end_matches]: strip every trailing copy of [pat]. *)
Definition trim_end_matches (s pat : string) : string :=
  rev_str (trim_start_matches (rev_str s) (rev_str pat)).

(** [str::split] with a non-empty string pattern, left to right, without
    overlaps; the pieces between the matches, empty ones included. *)
Fixpoint split_fuel (n : nat) (sep s cur : string) : list string :=
  match n with
  | O => [cur ++ s]
  | S n' =>
      match s with
      | EmptyString => [cur]
      | String c s' =>
          if String.prefix sep s
          then cur :: split_fuel n' sep
                        (str_drop (String.length sep) s) ""
          else split_fuel n' sep s' (cur ++ String c "")
      end
  end.

Definition split (s sep : string) : list string :=
  split_fuel (S (String.length s)) sep s "".

(** [str::split_whitespace] / [str::split_ascii_whitespace]: the non-empty
    runs between whitespace characters. *)
Fixpoint split_by (ws : ascii -> bool) (s cur : string) : list string :=
  match s with
  | EmptyString => if String.eqb cur "" then [] else [cur]
  | String c s' =>
      if ws c
      then if String.eqb cur "" then split_by ws s' ""
           else cur :: split_by ws s' ""
      else split_by ws s' (cur ++ String c "")
  end.

Definition split_whitespace (s : string) : list string := split_by is_ws s "".
Definition split_ascii_whitespace (s : string) : list string :=
  split_by is_ascii_ws s "".

(** [v[i]] on a [Vec]: out of range is a panic. *)
Definition index {A} (l : list A) (i : nat) : outcome A :=
  match nth_error l i with
  | Some x => Ok x
  | None => Panic
  end.

(** [v[i] = x] on a [Vec]: out of range is a panic. *)
Fixpoint set_index {A} (l : list A) (i : nat) (x : A) : outcome (list A) :=
  match l, i with
  | [], _ => Panic
  | _ :: t, O => Ok (x :: t)
  | h :: t, S i' => r <- set_index t i' x ;; Ok (h :: r)
  end.

(** ** Integers *)

Definition I32_MAX : Z := 2147483647.

(** [i32] addition with two's-complement wrap-around (release build). *)
Definition wrap_i32 (z : Z) : Z := ((z + 2^31) mod 2^32) - 2^31.

Definition is_digit (c : ascii) : bool :=
  let n := nat_of_ascii c in Nat.leb 48 n && Nat.leb n 57.

(** The maximal run of ASCII digits at the head of [s], and the rest. *)
Fixpoint take_digits (s : string) : string * string :=
  match s with
  | EmptyString => ("", "")
  | String c s' =>
      if is_digit c
      then let (d, r) := take_digits s' in (String c d, r)
      else ("", s)
  end.

Fixpoint all_digits (s : string) : bool :=
  match s with
  | EmptyString => true
  | String c s' => is_digit c && all_digits s'
  end.

(** A count as [git] prints it: a non-empty run of ASCII digits. *)
Definition count_text (d : string) : Prop := d <> "" /\ all_digits d = true.

Fixpoint digits_value (acc : Z) (s : string) : Z :=
  match s with
  | EmptyString => acc
  | String c s' =>
      digits_value (acc * 10 + (Z.of_nat (nat_of_ascii c) - 48)) s'
  end.

(** [s.parse::<i32>().unwrap()] on a non-empty run of ASCII digits:
    a value above [i32::MAX] is a parse error, so [unwrap] panics. *)
Definition parse_i32_unwrap (d : string) : outcome Z :=
  let v := digits_value 0 d in
  if Z.leb v I32_MAX then Ok v else Panic.

(** ** [log_shortstat_parse]

    The regex
    [(?<changes>\d+) files? changed(?:, (?<insertions>\d+) insertions?\(\+\))?(?:, (?<deletions>\d+) deletions?\(-\))?]
    is matched by hand.  A [\d+] run is always taken whole (what follows it is a
    space), and each [s?] is followed by a literal that tells the two choices
    apart, so the matcher below is the regex's leftmost-first match. *)
Module Shortstat.

(** A non-empty digit run at the head of [s]. *)
Definition digits1 (s : string) : option (string * string) :=
  let (d, r) := take_digits s in
  if String.eqb d "" then None else Some (d, r).

(** [ word s? tail] with a greedy optional [s]. *)
Definition word_opt_s (word tail s : string) : option string :=
  if String.prefix word s then
    let r := str_drop (String.length word) s in
    if String.prefix ("s" ++ tail) r then Some (str_drop (S (String.length tail)) r)
    else if String.prefix tail r then Some (str_drop (String.length tail) r)
    else None
  else None.

(** [(?:, (\d+) <word>s?<tail>)?] : [None] when the group does not match, in
    which case the input is left as it was. *)
Definition opt_clause (word tail s : string) : option string * string :=
  if String.prefix ", " s then
    match digits1 (str_drop 2 s) with
    | Some (d, r) =>
        match word_opt_s word tail r with
        | Some r' => (Some d, r')
        | None => (None, s)
        end
    | None => (None, s)
    end
  else (None, s).

(** The regex anchored at the head of [s]. *)
Definition match_at (s : string) : option (string * option string * option string) :=
  match digits1 s with
  | None => None
  | Some (c, r) =>
      match word_opt_s " file" " changed" r with
      | None => None
      | Some r1 =>
          let (ins, r2) := opt_clause " insertion" "(+)" r1 in
          let (del, _) := opt_clause " deletion" "(-)" r2 in
          Some (c, ins, del)
      end
  end.

(** [Regex::captures]: the match at the leftmost position where one exists. *)
Fixpoint captures (s : string) : option (string * option string * option string) :=
  match match_at s with
  | Some m => Some m
  | None =>
      match s with
      | EmptyString => None
      | String _ s' => captures s'
      end
  end.

Definition parse_group (g : option string) : outcome Z :=
  match g with
  | Some d => parse_i32_unwrap d
  | None => Ok 0%Z
  end.

Definition log_shortstat_parse (status : string) : outcome (Z * Z * Z) :=
  match captures status with
  | None => Err "No match found!"
  | Some (c, i, d) =>
      changes <- parse_group (Some c) ;;
      insertions <- parse_group i ;;
      deletions <- parse_group d ;;
      Ok (changes, insertions, deletions)
  end.

End Shortstat.

(** ** Records of src/src/structs.rs *)

Record Author := mkAuthor { name : string; email : string }.

Definition author_eqb (a b : Author) : bool :=
  String.eqb (name a) (name b) && String.eqb (email a) (email b).

(** ** [get_contribute_stat] (from the stdout of [git log --shortstat]) *)
Module Contribute.

Record StatDailyContribute := mkStat {
  commit_count : Z;
  data_list : list string;
  insertion : list Z;
  deletions : list Z;
  change_files : list Z
}.

Record AuthorStatDailyContribute := mkAuthorStat {
  author : Author;
  stat : StatDailyContribute
}.

Record BranchStatDailyContribute := mkBranchStat {
  branch : string;
  total_stat : StatDailyContribute;
  authors_stat : list AuthorStatDailyContribute
}.

Definition empty_stat : StatDailyContribute := mkStat 0 [] [] [] [].

(** The [HashMap<String, AuthorStatDailyContribute>] as an association list in
    insertion order; its values are what [into_values] yields (in an order
    the hasher decides). *)
Definition AuthorsMap := list (string * AuthorStatDailyContribute).

Fixpoint map_get (m : AuthorsMap) (k : string) : option AuthorStatDailyContribute :=
  match m with
  | [] => None
  | (k', v) :: m' => if String.eqb k k' then Some v else map_get m' k
  end.

Fixpoint map_insert (m : AuthorsMap) (k : string) (v : AuthorStatDailyContribute)
  : AuthorsMap :=
  match m with
  | [] => [(k, v)]
  | (k', v') :: m' =>
      if String.eqb k k' then (k', v) :: m' else (k', v') :: map_insert m' k v
  end.

Record State := mkState {
  authors_map : AuthorsMap;
  total : StatDailyContribute
}.

(** Push one day entry, as the ["new day and first commit"] branches do. *)
Definition push_day (s : StatDailyContribute) (date : string)
  (chg ins_n del_n : Z) : StatDailyContribute :=
  mkStat (commit_count s) (data_list s ++ [date]) (insertion s ++ [ins_n])
    (deletions s ++ [del_n]) (change_files s ++ [chg]).

(** Overwrite the entries at [len - 1], as the ["one day has multiple
    commits"] branches do; each assignment panics when out of range. *)
Definition overwrite_day (s : StatDailyContribute) (i : nat)
  (chg ins_n del_n : Z) : outcome StatDailyContribute :=
  cf <- set_index (change_files s) i chg ;;
  ins <- set_index (insertion s) i ins_n ;;
  del <- set_index (deletions s) i del_n ;;
  Ok (mkStat (commit_count s) (data_list s) ins del cf).

Definition incr (s : StatDailyContribute) : StatDailyContribute :=
  mkStat (wrap_i32 (commit_count s + 1)) (data_list s) (insertion s)
    (deletions s) (change_files s).

(** The branch for an author already in the map. *)
Definition update_author (a : AuthorStatDailyContribute) (date : string)
  (chg ins_n del_n : Z) : outcome AuthorStatDailyContribute :=
  let st := incr (stat a) in
  let len := length (data_list st) in
  match len with
  | O => Panic  (* [len - 1] underflows: [data_list[usize::MAX]] *)
  | S l =>
      last <- index (data_list st) l ;;
      if String.eqb last date then
        st' <- overwrite_day st l chg ins_n del_n ;;
        Ok (mkAuthorStat (author a) st')
      else Ok (mkAuthorStat (author a) (push_day st date chg ins_n del_n))
  end.

(** The "total stat" part, transcribed with its two pushes of [date]. *)
Definition update_total (t : StatDailyContribute) (date : string)
  (chg ins_n del_n : Z) : outcome StatDailyContribute :=
  let t := incr t in
  let len := length (data_list t) in
  match len with
  | S l =>
      last <- index (data_list t) l ;;
      if String.eqb last date then overwrite_day t l chg ins_n del_n
      else
        Ok (mkStat (commit_count t) (data_list t ++ [date; date])
              (insertion t ++ [ins_n]) (deletions t ++ [del_n])
              (change_files t ++ [chg]))
  | O =>
      Ok (mkStat (commit_count t) (data_list t ++ [date; date])
            (insertion t ++ [ins_n]) (deletions t ++ [del_n])
            (change_files t ++ [chg]))
  end.

(** One iteration of the [for i in 0..commits.len()] loop. *)
Definition step (st : State) (commit : string) : outcome State :=
  let lines := split (trim_end_matches commit NL) NL in
  if negb (Nat.eqb (length lines) 2) then Ok st  (* [continue] *)
  else
    line0 <- index lines 0 ;;
    line1 <- index lines 1 ;;
    let auth_info := split line0 PARAM_INTERVAL in
    match Shortstat.log_shortstat_parse line1 with
    | Err _ => Err ""
    | Panic => Panic
    | Ok (chg, ins_n, del_n) =>
        nm <- index auth_info 0 ;;
        em <- index auth_info 1 ;;
        date <- index auth_info 2 ;;
        m' <- match map_get (authors_map st) nm with
              | Some a =>
                  a' <- update_author a date chg ins_n del_n ;;
                  Ok (map_insert (authors_map st) nm a')
              | None =>
                  Ok (map_insert (authors_map st) nm
                        (mkAuthorStat (mkAuthor nm em)
                           (push_day (mkStat 1 [] [] [] []) date
                              chg ins_n del_n)))
              end ;;
        t' <- update_total (total st) date chg ins_n del_n ;;
        Ok (mkState m' t')
    end.

Fixpoint run (st : State) (commits : list string) : outcome State :=
  match commits with
  | [] => Ok st
  | c :: cs => st' <- step st c ;; run st' cs
  end.

Definition commits_of (stdout : string) : list string :=
  filter (fun l => negb (String.eqb l "")) (split (trim stdout) COMMIT_INETRVAL).

Definition init : State := mkState [] empty_stat.

Definition finish (br : string) (st : State) : BranchStatDailyContribute :=
  mkBranchStat br (total st) (map snd (authors_map st)).

(** [get_contribute_stat], once [git log] has produced [stdout]. *)
Definition get_contribute_stat (br stdout : string) : outcome BranchStatDailyContribute :=
  st <- run init (commits_of stdout) ;;
  Ok (finish br st).

(** Equal lengths of the four parallel arrays. *)
Definition parallel (s : StatDailyContribute) : Prop :=
  length (insertion s) = length (data_list s) /\
  length (deletions s) = length (data_list s) /\
  length (change_files s) = length (data_list s).

(** A git log record: a header line and a shortstat line. *)
Definition record (nm em date short : string) : string :=
  COMMIT_INETRVAL ++ nm ++ PARAM_INTERVAL ++ em ++ PARAM_INTERVAL ++ date
  ++ NL ++ short ++ NL ++ NL.

End Contribute.

(** ** [get_commit_log_format] (from the stdout of [git log --pretty=format:...]) *)
Module LogFormat.

(** [get_format_key_map] *)
Definition get_format_key_map : list (string * string) :=
  [("%H", "hashL"); ("%h", "hashS"); ("%T", "treeL"); ("%t", "treeS");
   ("%P", "parentHashL"); ("%p", "parentHashS"); ("%an", "authorName");
   ("%ae", "authorEmail"); ("%ad", "date"); ("%ar", "dateRelative");
   ("%at", "dateTimeStamp"); ("%cn", "committerName");
   ("%ce", "committerEmail"); ("%cd", "committerDate");
   ("%cr", "committerDateRelative"); ("%ct", "committerDateTimeStamp");
   ("%cs", "committerDateYMD"); ("%d", "refs"); ("%D", "refsComma");
   ("%s", "message"); ("%b", "body"); ("%B", "bodyNoTrailingSlash");
   ("%N", "notes")].

Fixpoint lookup (m : list (string * string)) (k : string) : option string :=
  match m with
  | [] => None
  | (k', v) :: m' => if String.eqb k k' then Some v else lookup m' k
  end.

(** A [HashMap<String, String>] record, by insertion order of its keys. *)
Fixpoint insert (m : list (string * string)) (k v : string) : list (string * string) :=
  match m with
  | [] => [(k, v)]
  | (k', v') :: m' => if String.eqb k k' then (k', v) :: m' else (k', v') :: insert m' k v
  end.

(** One iteration of the inner loop [for i in 0..placeholders.len()]. *)
Definition record_step (key_map : list (string * string))
  (placeholders datas : list string)
  (acc : outcome (list (string * string))) (i : nat)
  : outcome (list (string * string)) :=
  map <- acc ;;
  key <- index placeholders i ;;
  value <- index datas i ;;
  key' <- match lookup key_map key with
          | Some k => Ok k
          | None => Panic  (* [key_map.get(&key).unwrap()] *)
          end ;;
  Ok (insert map key' (trim value)).

(** The map built for one record. *)
Definition record_map (placeholders : list string) (line : string)
  : outcome (list (string * string)) :=
  let datas := split line PARAM_INTERVAL in
  fold_left (record_step get_format_key_map placeholders datas)
    (seq 0 (length placeholders)) (Ok []).

Fixpoint collect {A} (l : list (outcome A)) : outcome (list A) :=
  match l with
  | [] => Ok []
  | x :: xs => a <- x ;; r <- collect xs ;; Ok (a :: r)
  end.

Definition records_of (stdout : string) : list string :=
  split (trim_end_matches (trim stdout) COMMIT_INETRVAL) COMMIT_INETRVAL.

(** [get_commit_log_format], once [git log] has produced [stdout]. *)
Definition get_commit_log_format (placeholders : list string) (stdout : string)
  : outcome (list (list (string * string))) :=
  collect (map (record_map placeholders) (records_of stdout)).

(** The record map built from the first fields, one per placeholder. *)
Fixpoint from_fields (acc : list (string * string)) (keys fields : list string)
  : list (string * string) :=
  match keys, fields with
  | k :: ks, f :: fs => from_fields (insert acc k (trim f)) ks fs
  | _, _ => acc
  end.

End LogFormat.

(** ** The file status lines of [get_commit_file_status] *)
Module FileStatus.

Inductive FileStatusType :=
  Added | Deleted | Modified | Renamed | Copied | Updated | Unknown.

Record FileStatus := mkFileStatus {
  path : string;
  status : FileStatusType;
  message : string
}.

(** The closure mapped over [lines[1..]] in [get_commit_file_status]. *)
Definition file_status_of_line (line : string) : outcome FileStatus :=
  let params := split line TAB in
  file_path <- index params 1 ;;
  p0 <- index params 0 ;;
  status_flag <- (if Nat.ltb (String.length p0) 1 then Panic
                  else Ok (substring 0 1 p0)) ;;
  let '(status, message) :=
    if String.eqb status_flag "A" then (Added, "")
    else if String.eqb status_flag "D" then (Deleted, "")
    else if String.eqb status_flag "M" then (Modified, "")
    else if String.eqb status_flag "R" then
      (Renamed,
       match params with
       | [_; p1; p2] => p1 ++ " => " ++ p2
       | _ => ""
       end)
    else if String.eqb status_flag "C" then (Copied, "")
    else if String.eqb status_flag "U" then (Updated, "")
    else (Unknown, "") in
  Ok (mkFileStatus file_path status message).

(** The fixed table of the specification, on the first character. *)
Definition status_table (c : ascii) : FileStatusType :=
  match c with
  | "A"%char => Added
  | "D"%char => Deleted
  | "M"%char => Modified
  | "R"%char => Renamed
  | "C"%char => Copied
  | "U"%char => Updated
  | _ => Unknown
  end.

End FileStatus.

(** ** [insert_file_to_tree] and [file_info_list_to_tree] *)
Module FileTree.

Set Warnings "-register-all".

Inductive RepoFileInfo :=
| mkRepoFileInfo (name dir object_mode object_type object_name object_size : string)
    (is_dir : bool) (children : list RepoFileInfo).

Definition name (n : RepoFileInfo) : string :=
  let '(mkRepoFileInfo x _ _ _ _ _ _ _) := n in x.
Definition is_dir (n : RepoFileInfo) : bool :=
  let '(mkRepoFileInfo _ _ _ _ _ _ d _) := n in d.
Definition children (n : RepoFileInfo) : list RepoFileInfo :=
  let '(mkRepoFileInfo _ _ _ _ _ _ _ c) := n in c.
Definition set_children (n : RepoFileInfo) (c : list RepoFileInfo) : RepoFileInfo :=
  let '(mkRepoFileInfo x y m t o s d _) := n in mkRepoFileInfo x y m t o s d c.

(** [iter().position(|t| t.name == seg && t.is_dir)] *)
Fixpoint position (l : list RepoFileInfo) (seg : string) : option nat :=
  match l with
  | [] => None
  | t :: l' =>
      if String.eqb (name t) seg && is_dir t then Some O
      else option_map S (position l' seg)
  end.

(** [tmp_file_list = &mut tmp_file_list[index].children] followed by the
    rest of the loop: the node at [i] has its children rebuilt by [f]. *)
Fixpoint modify_nth (i : nat) (f : RepoFileInfo -> RepoFileInfo)
  (l : list RepoFileInfo) : list RepoFileInfo :=
  match l, i with
  | [], _ => []
  | t :: l', O => f t :: l'
  | t :: l', S i' => t :: modify_nth i' f l'
  end.

Definition starts_with_tree_mode (object_mode : string) : bool :=
  String.prefix "040000" object_mode.

Section Insert.
Variables object_mode object_type object_name object_size : string.

(** The loop [for i in 0..file_tree.len()], [walked] being
    [file_tree[0..i]] and [segs] being [file_tree[i..]]. *)
Fixpoint insert_segs (walked segs : list string) (l : list RepoFileInfo)
  : list RepoFileInfo :=
  match segs with
  | [] => l
  | seg :: rest =>
      match position l seg with
      | Some index =>
          modify_nth index
            (fun t => set_children t (insert_segs (walked ++ [seg]) rest (children t))) l
      | None =>
          let is_last := match rest with [] => true | _ => false end in
          let is_dir := starts_with_tree_mode object_mode || negb is_last in
          let dir := match walked with [] => "./" | _ => String.concat "/" walked end in
          let file := mkRepoFileInfo seg dir
                        (if is_last then object_mode else "")
                        (if is_last then object_type else "")
                        (if is_last then object_name else "")
                        (if is_last then object_size else "")
                        is_dir [] in
          if is_dir
          then l ++ [set_children file (insert_segs (walked ++ [seg]) rest [])]
          else l ++ [file]
      end
  end.

End Insert.

Definition insert_file_to_tree (file_list : list RepoFileInfo)
  (object_mode object_type object_name object_size object_path : string)
  : list RepoFileInfo :=
  insert_segs object_mode object_type object_name object_size []
    (split object_path "/") file_list.

(** One iteration of the loop of [file_info_list_to_tree]. *)
Definition add_line (file_list : list RepoFileInfo) (line : string)
  : list RepoFileInfo :=
  match split line PARAM_INTERVAL with
  | [object_mode; object_type; size; object_name; object_path] =>
      let object_size := trim size in
      if Nat.ltb 1 (length (split object_path "/"))
      then insert_file_to_tree file_list object_mode object_type object_name
             object_size object_path
      else file_list ++ [mkRepoFileInfo object_path "./" object_mode object_type
                           object_name object_size
                           (starts_with_tree_mode object_mode) []]
  | _ => file_list
  end.

Definition file_info_list_to_tree (file_info_list : list string) : list RepoFileInfo :=
  fold_left add_line file_info_list [].

(** A line of [git ls-tree] in the format [get_repo_file_list] asks for:
    mode, type, size, object name, path. *)
Definition ls_tree_line (object_mode object_type object_name object_size object_path : string)
  : string :=
  object_mode ++ PARAM_INTERVAL ++ object_type ++ PARAM_INTERVAL ++ object_size
  ++ PARAM_INTERVAL ++ object_name ++ PARAM_INTERVAL ++ object_path.

(** Every node with children is a directory, all the way down. *)
Fixpoint wf (n : RepoFileInfo) : bool :=
  let '(mkRepoFileInfo _ _ _ _ _ _ d c) := n in
  (d || match c with [] => true | _ => false end) &&
  (fix wfl (l : list RepoFileInfo) : bool :=
     match l with [] => true | x :: xs => wf x && wfl xs end) c.

(** [l'] is [l] with each node's children extended in the same way, and new
    siblings after them: nothing is reordered, new nodes only come last. *)
Inductive node_ext : RepoFileInfo -> RepoFileInfo -> Prop :=
| NodeExt : forall x y m t o s d c c',
    list_ext c c' -> node_ext (mkRepoFileInfo x y m t o s d c) (mkRepoFileInfo x y m t o s d c')
with list_ext : list RepoFileInfo -> list RepoFileInfo -> Prop :=
| ListExtNew : forall l', list_ext [] l'
| ListExtCons : forall n n' l l', node_ext n n' -> list_ext l l' -> list_ext (n :: l) (n' :: l').

End FileTree.

(** ** [get_remote] and [get_all_authors]

    Both collect their entries into a [HashMap] / [HashSet] and return
    [into_values()] / [into_iter()] of it.  The content of the collection is a
    function of the stdout text; the order of iteration is not: std's
    [RandomState] gives every map fresh random keys, and the iteration order
    is documented as arbitrary.  The result is therefore modelled as a
    relation: any permutation of the content. *)
Module Remotes.

Record Remote := mkRemote { name : string; url : string; operate : list string }.

(** The loop body of [get_remote] over the [HashMap<String, Remote>],
    an association list in insertion order. *)
Fixpoint add_remote (m : list (string * Remote)) (nm u op : string)
  : list (string * Remote) :=
  match m with
  | [] => [(nm, mkRemote nm u [op])]
  | (k, r) :: m' =>
      if String.eqb k nm
      then (k, mkRemote (name r) (url r) (operate r ++ [op])) :: m'
      else (k, r) :: add_remote m' nm u op
  end.

Definition remote_line (m : list (string * Remote)) (line : string)
  : outcome (list (string * Remote)) :=
  let parts := split_whitespace (trim line) in
  nm <- index parts 0 ;;
  u <- index parts 1 ;;
  p2 <- index parts 2 ;;
  let op := trim_end_matches (trim_start_matches p2 "(") ")" in
  Ok (add_remote m nm u op).

Fixpoint fold_outcome {A} (f : A -> string -> outcome A) (acc : A) (l : list string)
  : outcome A :=
  match l with
  | [] => Ok acc
  | x :: xs => acc' <- f acc x ;; fold_outcome f acc' xs
  end.

(** The content of the map after the loop. *)
Definition remotes_map (stdout : string) : outcome (list (string * Remote)) :=
  fold_outcome remote_line [] (split (trim stdout) NL).

(** The possible results of [get_remote] on [stdout]. *)
Definition get_remote (stdout : string) (res : outcome (list Remote)) : Prop :=
  match remotes_map stdout with
  | Ok m => exists l, res = Ok l /\ Permutation l (map snd m)
  | Err e => res = Err e
  | Panic => res = Panic
  end.

(** [HashSet::insert] on the set of authors: kept once. *)
Definition set_insert (s : list Author) (a : Author) : list Author :=
  if existsb (author_eqb a) s then s else s ++ [a].

Definition author_line (s : list Author) (line : string) : outcome (list Author) :=
  let keys := split_ascii_whitespace line in
  author_name <- index keys 1 ;;
  author_email <- index keys 2 ;;
  Ok (set_insert s (mkAuthor author_name author_email)).

Definition authors_set (stdout : string) : outcome (list Author) :=
  fold_outcome author_line [] (split (trim stdout) NL).

(** The possible results of [get_all_authors] on [stdout]. *)
Definition get_all_authors (stdout : string) (res : outcome (list Author)) : Prop :=
  match authors_set stdout with
  | Ok s => exists l, res = Ok l /\ Permutation l s
  | Err e => res = Err e
  | Panic => res = Panic
  end.

(** Two results are the same collection, possibly in another order. *)
Definition same_up_to_order {A} (r1 r2 : outcome (list A)) : Prop :=
  match r1, r2 with
  | Ok l1, Ok l2 => Permutation l1 l2
  | _, _ => r1 = r2
  end.

End Remotes.

(** ** Further string primitives *)

(** Every character of [s] satisfies [p]. *)
Fixpoint all_chars (p : ascii -> bool) (s : string) : bool :=
  match s with
  | EmptyString => true
  | String c s' => p c && all_chars p s'
  end.

(** [s] does not contain the character [c]. *)
Definition no_char (c : ascii) (s : string) : bool :=
  all_chars (fun x => negb (Ascii.eqb x c)) s.

Definition DQ : string := String (ascii_of_nat 34) "".
Definition CR : ascii := ascii_of_nat 13.

(** [line.strip_suffix('\r')], keeping the line when it has no ["\r"] ending. *)
Definition strip_cr (line : string) : string :=
  match rev_str line with
  | String c r => if Ascii.eqb c CR then rev_str r else line
  | EmptyString => line
  end.

(** [str::lines]: the pieces of [split_inclusive('\n')], each without its
    ["\n"] or ["\r\n"] ending; a last piece without ["\n"] is kept as it
    is, and there is no empty piece after a final ["\n"]. *)
Fixpoint lines_of (pieces : list string) : list string :=
  match pieces with
  | [] => []
  | [last] => if String.eqb last "" then [] else [last]
  | p :: ps => strip_cr p :: lines_of ps
  end.

Definition lines (s : string) : list string := lines_of (split s NL).

(** [s.parse::<i32>().unwrap()] on any text: an optional sign and a
    non-empty run of ASCII digits, within the [i32] range; anything else is
    a parse error, on which [unwrap] panics. *)
Definition parse_i32_any (s : string) : outcome Z :=
  let digits d := negb (String.eqb d "") && all_digits d in
  match s with
  | String "+"%char d => if digits d then parse_i32_unwrap d else Panic
  | String "-"%char d =>
      if digits d then
        let v := digits_value 0 d in
        if Z.leb v (I32_MAX + 1) then Ok (- v)%Z else Panic
      else Panic
  | _ => if digits s then parse_i32_unwrap s else Panic
  end.

(** ** [build_commit_range] (src/src/util.rs) *)
Module Util.

Definition build_commit_range (start end_ : string) : string :=
  if String.eqb start "" && String.eqb end_ "" then "HEAD"
  else if String.eqb start "" && negb (String.eqb end_ "") then end_
  else if negb (String.eqb start "") && String.eqb end_ "" then start ++ "^..HEAD"
  else start ++ "^.." ++ end_.

End Util.

(** ** Branches, tags and branch authors *)
Module Branches.

(** The closure of [get_branches]: [line.trim_start_matches('*').trim()
    .split(" ").next().unwrap()]. *)
Definition branch_of_line (line : string) : outcome string :=
  match split (trim (trim_start_matches line "*")) " " with
  | tmp :: _ => Ok tmp
  | [] => Panic
  end.

(** [get_branches], once [git branch --all] has produced [stdout]. *)
Definition get_branches (stdout : string) : outcome (list string) :=
  LogFormat.collect (map branch_of_line (lines stdout)).

(** [get_tags], once [git tag] has produced [stdout]. *)
Definition get_tags (stdout : string) : list string :=
  split (trim stdout) NL.

(** The loop body of [get_branch_authors]: a [Vec<Author>], no set. *)
Definition branch_author_line (authors : list Author) (line : string)
  : outcome (list Author) :=
  let keys := split_ascii_whitespace line in
  author_name <- index keys 1 ;;
  author_email <- index keys 2 ;;
  Ok (authors ++ [mkAuthor author_name author_email])%list.

(** [get_branch_authors], once [git shortlog <branch> -sne] has produced
    [stdout]. *)
Definition get_branch_authors (stdout : string) : outcome (list Author) :=
  Remotes.fold_outcome branch_author_line [] (split (trim stdout) NL).

End Branches.

(** ** [get_branch_create_info] *)
Module CreateInfo.



End CreateInfo.

(** ** File status and diff readers *)
Module FileDiff.
Import FileStatus.

(** [parse_file_status]: the whole flag is matched. *)
Definition parse_file_status (status_flag : string) : FileStatusType :=
  if String.eqb status_flag "A" then Added
  else if String.eqb status_flag "D" then Deleted
  else if String.eqb status_flag "M" then Modified
  else if String.eqb status_flag "R" then Renamed
  else if String.eqb status_flag "C" then Copied
  else if String.eqb status_flag "U" then Updated
  else Unknown.

(** [s[0..1].to_string()]: out of range on an empty [s] is a panic. *)
Definition first_char (s : string) : outcome string :=
  if Nat.ltb (String.length s) 1 then Panic else Ok (substring 0 1 s).

(** [get_file_between_commit_status], once [git show <hash> --name-status
    --format= -- <file>] has produced [stdout]. *)
Definition get_file_between_commit_status (stdout : string)
  : outcome (FileStatusType * string) :=
  let lines := split_ascii_whitespace (trim stdout) in
  if Nat.ltb 0 (length lines) then
    l0 <- index lines 0 ;;
    status_flag <- first_char l0 ;;
    let file_status := parse_file_status status_flag in
    message <- match file_status with
               | Renamed =>
                   if Nat.ltb 1 (length lines) then
                     l1 <- index lines 1 ;;
                     l2 <- index lines 2 ;;
                     Ok (l1 ++ " => " ++ l2)
                   else Ok ""
               | _ => Ok ""
               end ;;
    Ok (file_status, message)
  else Err "No status found".

(** The loop body of [get_files_status_between_commit] on one line. *)
Definition status_line (line : string) : outcome FileStatus :=
  let params := split_ascii_whitespace line in
  p0 <- index params 0 ;;
  flag <- first_char p0 ;;
  let file_staus := parse_file_status flag in
  message <- match file_staus with
             | Renamed =>
                 if Nat.ltb 2 (length params) then
                   p1 <- index params 1 ;;
                   p2 <- index params 2 ;;
                   Ok (p1 ++ " => " ++ p2)
                 else Ok ""
             | _ => Ok ""
             end ;;
  file_path <- index params 1 ;;
  Ok (mkFileStatus file_path file_staus message).

(** [get_files_status_between_commit], once [git diff --name-status <h1>
    <h2>] has produced [stdout]. *)
Definition get_files_status_between_commit (stdout : string)
  : outcome (list FileStatus) :=
  Remotes.fold_outcome
    (fun file_status line => fs <- status_line line ;; Ok (file_status ++ [fs])%list)
    [] (split (trim stdout) NL).

Record FileStatusReport := mkFileStatusReport {
  title : string;
  hash : string;
  time : string;
  author : Author;
  status : list FileStatus
}.

(** [get_commit_file_status], once [git show <hash> --name-status --oneline
    --format=%H<<P>>%s<<P>>%an<<P>>%ae<<P>>%at] has produced [stdout]. *)
Definition get_commit_file_status (stdout : string) : outcome FileStatusReport :=
  let lines := filter (fun t => negb (String.eqb t "")) (split (trim stdout) NL) in
  line0 <- index lines 0 ;;
  let commit_info := split (trim line0) PARAM_INTERVAL in
  commit_hash <- index commit_info 0 ;;
  commit_message <- index commit_info 1 ;;
  commit_author <- index commit_info 2 ;;
  commit_author_email <- index commit_info 3 ;;
  commit_time <- index commit_info 4 ;;
  file_status <- LogFormat.collect (map file_status_of_line (skipn 1 lines)) ;;
  Ok (mkFileStatusReport commit_message commit_hash commit_time
        (mkAuthor commit_author commit_author_email) file_status).

(** [get_file_modify_stat_between_commit], once [git diff <h1>...<h2>
    --shortstat -- <file>] has produced [stdout]: (addition, deletion). *)
Definition get_file_modify_stat_between_commit (path commit_hash1 commit_hash2 stdout : string)
  : outcome (Z * Z) :=
  match Shortstat.log_shortstat_parse stdout with
  | Ok (_, addition, deletion) => Ok (addition, deletion)
  | Err _ =>
      Err ("Failed to get file change status:" ++ NL ++ "Repository path: " ++ path
           ++ NL ++ "commit hash1: " ++ commit_hash1 ++ NL ++ "commit hash2: "
           ++ commit_hash2)
  | Panic => Panic
  end.

(** [get_diff_file_stat_between_commit], once [git diff <h1>...<h2>
    --shortstat -- <file1> <file2>] has produced [stdout]. *)
Definition get_diff_file_stat_between_commit (stdout : string) : outcome (Z * Z) :=
  match Shortstat.log_shortstat_parse stdout with
  | Ok (_, insertation, deletion) => Ok (insertation, deletion)
  | Err _ => Err "File to parse git diff shortstat"
  | Panic => Panic
  end.

(** The [FileStatusType::Modified] arm of [diff_file_context]: the shortstat
    read by hand, (addition, deletion). *)
Definition modified_change_stat (stdout : string) : outcome (Z * Z) :=
  let lines := split (trim stdout) ", " in
  l1 <- index lines 1 ;;
  let change_info1 := split l1 " " in
  if Nat.ltb 2 (length lines) then
    c1 <- index change_info1 1 ;;
    if String.prefix "insertion" c1 then
      c0 <- index change_info1 0 ;;
      addition <- parse_i32_any c0 ;;
      l2 <- index lines 2 ;;
      let change_info2 := split l2 " " in
      d0 <- index change_info2 0 ;;
      deletion <- parse_i32_any d0 ;;
      Ok (addition, deletion)
    else Ok (0%Z, 0%Z)
  else
    c1 <- index change_info1 1 ;;
    if String.prefix "insertion" c1 then
      c0 <- index change_info1 0 ;;
      addition <- parse_i32_any c0 ;;
      Ok (addition, 0%Z)
    else
      c0 <- index change_info1 0 ;;
      deletion <- parse_i32_any c0 ;;
      Ok (0%Z, deletion).

(** [is_binary]: a NUL among the first 8000 bytes. *)
Definition is_binary (content : string) : bool :=
  existsb (fun c => Ascii.eqb c Ascii.zero) (firstn 8000 (list_ascii_of_string content)).

End FileDiff.

(** ** [get_repo_file_list] *)
Module RepoFiles.

(** [get_repo_file_list], once [git ls-tree -r] has produced [stdout]. *)
Definition get_repo_file_list (stdout : string) : list FileTree.RepoFileInfo :=
  FileTree.file_info_list_to_tree (split (trim stdout) NL).

(** A line of [git ls-tree] for the [--format] argument that
    [get_repo_file_list] passes: the argument is given to [git] without a
    shell, so its double quotes are part of the format and of every line. *)
Definition quoted_ls_tree_line (object_mode object_type object_name object_size object_path : string)
  : string :=
  DQ ++ FileTree.ls_tree_line object_mode object_type object_name object_size object_path ++ DQ.

End RepoFiles.

(** * Proofs *)

Module ShortstatFacts.
Import Shortstat.

Definition head_not_digit (x : string) : bool :=
  match x with
  | EmptyString => true
  | String c _ => negb (is_digit c)
  end.

Lemma take_digits_app (d x : string) :
  all_digits d = true -> head_not_digit x = true -> take_digits (d ++ x) = (d, x).
Proof.
  intros Hd Hx. induction d as [|c d IH]; simpl.
  - destruct x as [|c x]; simpl in *; [reflexivity|].
    destruct (is_digit c); [discriminate|reflexivity].
  - simpl in Hd. apply andb_prop in Hd as [Hc Hd]. rewrite Hc, (IH Hd). reflexivity.
Qed.

Lemma eqb_nonempty (d : string) : d <> "" -> String.eqb d "" = false.
Proof. intros H. apply String.eqb_neq. exact H. Qed.

Lemma captures_at_head (s : string) m :
  match_at s = Some m -> captures s = Some m.
Proof.
  intros H. destruct s as [|c s].
  - discriminate H.
  - cbn [captures]. rewrite H. reflexivity.
Qed.

Lemma parse_count (d : string) :
  (digits_value 0 d <= I32_MAX)%Z -> parse_group (Some d) = Ok (digits_value 0 d).
Proof.
  intros H. unfold parse_group, parse_i32_unwrap.
  apply Z.leb_le in H. rewrite H. reflexivity.
Qed.

Lemma prefix_empty (x : string) : String.prefix "" x = true.
Proof. destruct x; reflexivity. Qed.

Ltac digits_run :=
  repeat (simpl;
          match goal with
          | |- context [String.prefix "" ?x] => rewrite (prefix_empty x)
          | H : count_text ?d |- context [take_digits (?d ++ ?x)] =>
              rewrite (take_digits_app d x (proj2 H) eq_refl);
              simpl; rewrite (eqb_nonempty d (proj1 H))
          end).

(** C3 (amended): the clauses are matched in the fixed order of the regex.
    With the files-changed clause first, an insertions clause followed by a
    deletions clause yields both counts; a deletions clause followed by an
    insertions clause yields the deletion count, and the insertion count is
    not extracted (0). *)
Theorem shortstat_fixed_clause_order (n m k : string) :
  count_text n -> count_text m -> count_text k ->
  (digits_value 0 n <= I32_MAX)%Z -> (digits_value 0 m <= I32_MAX)%Z ->
  (digits_value 0 k <= I32_MAX)%Z ->
  log_shortstat_parse
    (n ++ " files changed, " ++ m ++ " insertions(+), " ++ k ++ " deletions(-)")
  = Ok (digits_value 0 n, digits_value 0 m, digits_value 0 k) /\
  log_shortstat_parse
    (n ++ " files changed, " ++ k ++ " deletions(-), " ++ m ++ " insertions(+)")
  = Ok (digits_value 0 n, 0%Z, digits_value 0 k).
Proof.
  intros Hn Hm Hk Vn Vm Vk. split.
  - unfold log_shortstat_parse.
    rewrite (captures_at_head _ (n, Some m, Some k)).
    + cbn iota beta. rewrite (parse_count n Vn), (parse_count m Vm), (parse_count k Vk).
      reflexivity.
    + unfold match_at, digits1. digits_run.
      unfold opt_clause, digits1. digits_run. reflexivity.
  - unfold log_shortstat_parse.
    rewrite (captures_at_head _ (n, None, Some k)).
    + cbn iota beta. rewrite (parse_count n Vn), (parse_count k Vk).
      reflexivity.
    + unfold match_at, digits1. digits_run.
      unfold opt_clause, digits1. digits_run. reflexivity.
Qed.

(** C3 (refuted as stated): with the deletions clause before the insertions
    clause the insertion count is not extracted. *)
Lemma shortstat_reversed_order_counterexample :
  log_shortstat_parse "3 files changed, 4 deletions(-), 10 insertions(+)"
  <> Ok (3%Z, 10%Z, 4%Z).
Proof. intros H. vm_compute in H. congruence. Qed.

Lemma shortstat_fixed_clause_order_witness :
  log_shortstat_parse "3 files changed, 10 insertions(+), 4 deletions(-)"
  = Ok (3%Z, 10%Z, 4%Z) /\
  log_shortstat_parse "3 files changed, 4 deletions(-), 10 insertions(+)"
  = Ok (3%Z, 0%Z, 4%Z).
Proof.
  refine (shortstat_fixed_clause_order "3" "10" "4" _ _ _ _ _ _);
    first [split; [discriminate | reflexivity] | vm_compute; congruence].
Defined.

(** C4: the three examples of the specification: two counts in order, a
    missing insertions clause read as 0, and no files-changed clause read as
    a parse error. *)
Theorem shortstat_examples :
  log_shortstat_parse "3 files changed, 10 insertions(+), 4 deletions(-)"
  = Ok (3%Z, 10%Z, 4%Z) /\
  log_shortstat_parse "1 file changed, 2 deletions(-)" = Ok (1%Z, 0%Z, 2%Z) /\
  log_shortstat_parse "no match text" = Err "No match found!".
Proof. vm_compute. repeat split. Qed.

End ShortstatFacts.

Lemma bind_ok {A B} (m : outcome A) (f : A -> outcome B) (b : B) :
  bind m f = Ok b -> exists a, m = Ok a /\ f a = Ok b.
Proof. destruct m; simpl; intros H; [eauto | discriminate | discriminate]. Qed.

Ltac inv_bind H :=
  let a := fresh "a" in let Ha := fresh "Ha" in
  apply bind_ok in H as [a [Ha H]].

Module ContributeFacts.
Import Contribute.

Lemma set_index_length {A} (l : list A) i x l' :
  set_index l i x = Ok l' -> length l' = length l.
Proof.
  revert i l'. induction l as [|h t IH]; intros [|i] l' H; simpl in H;
    try discriminate.
  - injection H as <-. reflexivity.
  - inv_bind H. injection H as <-. simpl. f_equal. eapply IH. exact Ha.
Qed.

Lemma overwrite_day_parallel s i c n d s' :
  parallel s -> overwrite_day s i c n d = Ok s' -> parallel s'.
Proof.
  unfold overwrite_day, parallel. intros (H1 & H2 & H3) H.
  inv_bind H. inv_bind H. inv_bind H. injection H as <-. simpl.
  apply set_index_length in Ha, Ha0, Ha1. lia.
Qed.

Lemma push_day_parallel s date c n d :
  parallel s -> parallel (push_day s date c n d).
Proof.
  unfold push_day, parallel. simpl. rewrite !length_app. simpl. lia.
Qed.

Lemma update_author_parallel a date c n d a' :
  parallel (stat a) -> update_author a date c n d = Ok a' -> parallel (stat a').
Proof.
  unfold update_author. intros Hp H.
  destruct (length (data_list (incr (stat a)))) as [|l]; [discriminate|].
  inv_bind H. destruct (String.eqb a0 date).
  - inv_bind H. injection H as <-. simpl.
    eapply overwrite_day_parallel; [|exact Ha0]. exact Hp.
  - injection H as <-. simpl. apply push_day_parallel. exact Hp.
Qed.

Lemma map_insert_in m k v k' a :
  In (k', a) (map_insert m k v) -> In (k', a) m \/ a = v.
Proof.
  induction m as [|[k0 v0] m IH]; simpl.
  - intros [H|[]]. injection H as _ <-. now right.
  - destruct (String.eqb k k0); simpl.
    + intros [H|H]; [injection H as _ <-; now right | now left; right].
    + intros [H|H]; [now left; left | destruct (IH H); [left; right|right]; assumption].
Qed.

Lemma map_get_in m k a : map_get m k = Some a -> exists k', In (k', a) m.
Proof.
  induction m as [|[k0 v0] m IH]; simpl; [discriminate|].
  destruct (String.eqb k k0).
  - intros H. injection H as <-. eauto.
  - intros H. destruct (IH H) as [k' Hk]. eauto.
Qed.

(** Every per-author stat in the map has parallel arrays. *)
Definition authors_parallel (m : AuthorsMap) : Prop :=
  forall k a, In (k, a) m -> parallel (stat a).

Lemma step_authors_parallel st c st' :
  authors_parallel (authors_map st) -> step st c = Ok st' ->
  authors_parallel (authors_map st').
Proof.
  unfold step. intros Hinv H.
  destruct (negb _); [injection H as <-; exact Hinv|].
  inv_bind H. inv_bind H.
  destruct (Shortstat.log_shortstat_parse a0) as [[[chg ins_n] del_n]| |];
    try discriminate.
  inv_bind H. inv_bind H. inv_bind H. inv_bind H. inv_bind H.
  injection H as <-. simpl.
  intros k x Hin.
  destruct (map_get (authors_map st) a1) as [a'|] eqn:Hg.
  - inv_bind Ha4. injection Ha4 as <-.
    apply map_insert_in in Hin as [Hin| ->]; [eapply Hinv; exact Hin|].
    apply map_get_in in Hg as [k' Hk'].
    eapply update_author_parallel; [|exact Ha6]. eapply Hinv. exact Hk'.
  - injection Ha4 as <-.
    apply map_insert_in in Hin as [Hin| ->]; [eapply Hinv; exact Hin|].
    simpl. apply push_day_parallel. repeat split.
Qed.

Lemma run_authors_parallel cs st st' :
  authors_parallel (authors_map st) -> run st cs = Ok st' ->
  authors_parallel (authors_map st').
Proof.
  revert st. induction cs as [|c cs IH]; simpl; intros st Hinv H.
  - injection H as <-. exact Hinv.
  - inv_bind H. eapply IH; [|exact H]. eapply step_authors_parallel; eauto.
Qed.

(** The per-author half of the equal-length invariant holds on every result. *)
Lemma authors_stat_parallel br stdout r :
  get_contribute_stat br stdout = Ok r -> Forall (fun a => parallel (stat a)) (authors_stat r).
Proof.
  unfold get_contribute_stat. intros H. inv_bind H. injection H as <-.
  assert (Hinv : authors_parallel (authors_map a)).
  { eapply run_authors_parallel; [|exact Ha]. intros k x []. }
  simpl. apply Forall_forall. intros x Hx. apply in_map_iff in Hx as [[k y] [<- Hy]].
  eapply Hinv. exact Hy.
Qed.

Lemma index_last {A} (l : list A) x : index (l ++ [x]) (length l) = Ok x.
Proof. unfold index. rewrite nth_error_app2, Nat.sub_diag by lia. reflexivity. Qed.

Lemma set_index_last {A} (l : list A) x y : set_index (l ++ [x]) (length l) y = Ok (l ++ [y])%list.
Proof. induction l as [|h t IH]; simpl; [reflexivity|]. rewrite IH. reflexivity. Qed.

(** The per-author branch alone is last-write-wins: an author whose last
    day is [date] keeps one entry for it, overwritten, and counts one more
    commit. *)
Lemma update_author_same_day a cc ds is dl cf date i0 d0 c0 c n d :
  stat a = mkStat cc (ds ++ [date]) (is ++ [i0]) (dl ++ [d0]) (cf ++ [c0]) ->
  length is = length ds -> length dl = length ds -> length cf = length ds ->
  update_author a date c n d =
  Ok (mkAuthorStat (author a)
        (mkStat (wrap_i32 (cc + 1)) (ds ++ [date]) (is ++ [n]) (dl ++ [d]) (cf ++ [c]))).
Proof.
  intros Hs Hi Hd Hc. unfold update_author, incr. rewrite Hs. simpl.
  rewrite length_app, Nat.add_1_r, index_last. simpl. rewrite String.eqb_refl.
  unfold overwrite_day. simpl.
  rewrite <- Hc, set_index_last. simpl. rewrite Hc, <- Hi, set_index_last. simpl.
  rewrite Hi, <- Hd, set_index_last. reflexivity.
Qed.

Lemma run_app st l1 l2 :
  run st (l1 ++ l2) = bind (run st l1) (fun s => run s l2).
Proof.
  revert st. induction l1 as [|c l1 IH]; intros st; simpl; [reflexivity|].
  destruct (step st c); simpl; [apply IH | reflexivity | reflexivity].
Qed.

(** C1 (code defect): on a one-commit log, the total stat gets its date
    pushed twice while each count array gets one entry, so its four arrays
    do not have equal lengths; the author's stat does. *)
Theorem total_stat_date_pushed_twice :
  match get_contribute_stat "main"
          (record "alice" "alice@example.com" "1700000000"
             " 1 file changed, 2 insertions(+)") with
  | Ok r =>
      data_list (total_stat r) = ["1700000000"; "1700000000"] /\
      insertion (total_stat r) = [2%Z] /\
      ~ parallel (total_stat r) /\
      Forall (fun a => parallel (stat a)) (authors_stat r)
  | _ => False
  end.
Proof.
  vm_compute. split; [reflexivity|]. split; [reflexivity|]. split.
  - intros [H _]. discriminate H.
  - repeat constructor.
Qed.

(** C5 (code defect): two commits of one author with the same date, one
    after the other, make the aggregator panic: the total stat's date list
    holds the first date twice, so the same-day branch writes the counts at
    index 1, past their single entry. *)
Theorem same_day_commits_panic :
  get_contribute_stat "main"
    (record "alice" "alice@example.com" "1700000000" " 1 file changed, 2 insertions(+)"
     ++ record "alice" "alice@example.com" "1700000000" " 3 files changed, 5 deletions(-)")
  = Panic.
Proof. vm_compute. reflexivity. Qed.

(** C10: a commit record that does not split into exactly two lines is
    skipped: the loop state (every commit count, day and count entry) is
    unchanged, no error is raised, and the result is that of the log
    without the record. *)
Theorem malformed_record_skipped (c : string) :
  length (split (trim_end_matches c NL) NL) <> 2 ->
  (forall st, step st c = Ok st) /\
  (forall st cs1 cs2, run st (cs1 ++ c :: cs2) = run st (cs1 ++ cs2)).
Proof.
  intros Hlen.
  assert (Hs : forall st, step st c = Ok st).
  { intros st. unfold step.
    apply Nat.eqb_neq in Hlen. rewrite Hlen. reflexivity. }
  split; [exact Hs|].
  intros st cs1 cs2. rewrite !run_app. destruct (run st cs1); simpl;
    [rewrite Hs; reflexivity | reflexivity | reflexivity].
Qed.

(** A merge commit has no shortstat line: its record is one line. *)
Lemma malformed_record_skipped_witness :
  let c := "alice" ++ PARAM_INTERVAL ++ "alice@example.com" ++ PARAM_INTERVAL
           ++ "1700000000" ++ NL in
  length (split (trim_end_matches c NL) NL) = 1 /\
  step init c = Ok init /\
  run init [c; c] = Ok init.
Proof.
  intros c.
  destruct (malformed_record_skipped c) as [Hs Hr].
  { vm_compute. discriminate. }
  split; [vm_compute; reflexivity|]. split; [apply Hs|].
  pose proof (Hr init [] [c]) as H. cbn [app] in H. rewrite H.
  cbn [run]. rewrite Hs. reflexivity.
Defined.

End ContributeFacts.

Module LogFormatFacts.
Import LogFormat.

Lemma fold_panic km ph datas l :
  fold_left (record_step km ph datas) l Panic = Panic.
Proof. induction l as [|i l IH]; simpl; [reflexivity | exact IH]. Qed.

Lemma index_in {A} (l : list A) i : i < length l -> exists x, index l i = Ok x /\ nth_error l i = Some x.
Proof.
  intros H. unfold index. destruct (nth_error l i) as [x|] eqn:E.
  - eauto.
  - apply nth_error_None in E. lia.
Qed.

Lemma index_out {A} (l : list A) i : length l <= i -> index l i = Panic.
Proof. intros H. unfold index. apply nth_error_None in H. rewrite H. reflexivity. Qed.

Lemma skipn_nth {A} (l : list A) j x :
  nth_error l j = Some x -> skipn j l = x :: skipn (S j) l.
Proof.
  revert l. induction j as [|j IH]; intros [|h t] H; simpl in *; try discriminate.
  - injection H as ->. reflexivity.
  - apply IH. exact H.
Qed.

(** Too few fields: the loop reaches an index past the fields and panics. *)
Lemma loop_short km ph datas k : forall j acc,
  j + k <= length ph -> j <= length datas -> length datas < j + k ->
  fold_left (record_step km ph datas) (seq j k) (Ok acc) = Panic.
Proof.
  induction k as [|k IH]; intros j acc Hph Hj Hd; [lia|].
  assert (Hj0 : j < length ph) by lia.
  destruct (index_in ph j Hj0) as [p [Hp _]].
  cbn [seq fold_left].
  destruct (Nat.lt_ge_cases j (length datas)) as [Hj'|Hj'].
  - destruct (index_in datas j Hj') as [v [Hv _]].
    destruct (lookup km p) as [kp|] eqn:El.
    + replace (record_step km ph datas (Ok acc) j)
        with (Ok (insert acc kp (trim v)) : outcome (list (string * string)))
        by (unfold record_step; cbn [bind]; rewrite Hp; cbn [bind]; rewrite Hv;
            cbn [bind]; rewrite El; reflexivity).
      apply IH; lia.
    + replace (record_step km ph datas (Ok acc) j) with (@Panic (list (string * string)))
        by (unfold record_step; cbn [bind]; rewrite Hp; cbn [bind]; rewrite Hv;
            cbn [bind]; rewrite El; reflexivity).
      apply fold_panic.
  - replace (record_step km ph datas (Ok acc) j) with (@Panic (list (string * string)))
      by (unfold record_step; cbn [bind]; rewrite Hp; cbn [bind];
          rewrite (index_out datas j Hj'); reflexivity).
    apply fold_panic.
Qed.

(** Enough fields: the record is built from the fields at the visited indices. *)
Lemma loop_enough km ph datas keys :
  map (lookup km) ph = map Some keys ->
  forall k j acc,
  j + k <= length ph -> j + k <= length datas ->
  fold_left (record_step km ph datas) (seq j k) (Ok acc)
  = Ok (from_fields acc (firstn k (skipn j keys)) (firstn k (skipn j datas))).
Proof.
  intros Hk k. induction k as [|k IH]; intros j acc Hph Hd; cbn [seq fold_left].
  - reflexivity.
  - assert (Hj0 : j < length ph) by lia.
    assert (Hj1 : j < length datas) by lia.
    destruct (index_in ph j Hj0) as [p [Hp Ep]].
    destruct (index_in datas j Hj1) as [v [Hv Ev]].
    assert (Ek : nth_error keys j = lookup km p).
    { assert (E := f_equal (fun l => nth_error l j) Hk). cbv beta in E.
      rewrite !nth_error_map, Ep in E. cbn [option_map] in E.
      destruct (nth_error keys j) as [kj|]; cbn [option_map] in E.
      - injection E as E. rewrite E. reflexivity.
      - discriminate E. }
    destruct (lookup km p) as [kj|] eqn:El.
    2:{ apply nth_error_None in Ek.
        apply (f_equal (@length _)) in Hk. rewrite !length_map in Hk. lia. }
    replace (record_step km ph datas (Ok acc) j)
      with (Ok (insert acc kj (trim v)) : outcome (list (string * string)))
      by (unfold record_step; cbn [bind]; rewrite Hp; cbn [bind]; rewrite Hv;
          cbn [bind]; rewrite El; reflexivity).
    rewrite (skipn_nth keys j kj Ek), (skipn_nth datas j v Ev).
    cbn [firstn from_fields]. apply IH; lia.
Qed.

(** C2 (amended): the record's field count is not checked.  A record with
    fewer fields than placeholders makes the loop index past its fields and
    panic; a record with at least as many fields (all placeholders being
    known keys) is mapped from its first [placeholders.len()] fields, the
    extra ones being dropped without an error. *)
Theorem record_field_count (ph : list string) (line : string) :
  (length (split line PARAM_INTERVAL) < length ph -> record_map ph line = Panic) /\
  (forall keys, map (lookup get_format_key_map) ph = map Some keys ->
   length ph <= length (split line PARAM_INTERVAL) ->
   record_map ph line
   = Ok (from_fields [] keys (firstn (length ph) (split line PARAM_INTERVAL)))).
Proof.
  split.
  - intros Hlt. unfold record_map.
    apply (loop_short get_format_key_map ph _ (length ph) 0 []); lia.
  - intros keys Hk Hle. unfold record_map.
    rewrite (loop_enough get_format_key_map ph _ keys Hk (length ph) 0 []) by lia.
    cbn [skipn]. rewrite (firstn_all2 keys); [reflexivity|].
    apply (f_equal (@length _)) in Hk. rewrite !length_map in Hk. lia.
Qed.

Lemma record_field_count_witness :
  record_map ["%H"; "%s"] "abc" = Panic /\
  record_map ["%H"; "%s"]
    ("abc" ++ PARAM_INTERVAL ++ "msg" ++ PARAM_INTERVAL ++ "extra")
  = Ok [("hashL", "abc"); ("message", "msg")].
Proof.
  destruct (record_field_count ["%H"; "%s"] "abc") as [H1 _].
  destruct (record_field_count ["%H"; "%s"]
              ("abc" ++ PARAM_INTERVAL ++ "msg" ++ PARAM_INTERVAL ++ "extra"))
    as [_ H2].
  split.
  - apply H1. vm_compute. lia.
  - rewrite (H2 ["hashL"; "message"]); [vm_compute; reflexivity | reflexivity |].
    vm_compute. lia.
Defined.

(** C2 (refuted as stated): a record with one field too many is returned
    without its extra field and without an error, and a record with one
    field too few makes the parser panic. *)
Lemma log_format_field_count_counterexample :
  get_commit_log_format ["%H"; "%s"]
    ("abc" ++ PARAM_INTERVAL ++ "msg" ++ PARAM_INTERVAL ++ "extra" ++ COMMIT_INETRVAL)
  = Ok [[("hashL", "abc"); ("message", "msg")]] /\
  get_commit_log_format ["%H"; "%s"] ("abc" ++ COMMIT_INETRVAL) = Panic.
Proof. vm_compute. split; reflexivity. Qed.

End LogFormatFacts.

Module FileStatusFacts.
Import FileStatus.

(** C6 (amended): for a line whose flag column is non-empty and which has
    at least one path column, the status comes from the first character of
    the flag by the fixed table, the path is the first path column, and the
    message is ["<old> => <new>"] only for a Renamed line with exactly two
    path columns; every other line, Copied included, has an empty message. *)
Theorem file_status_line_table (line : string) (c : ascii) (p0 p1 : string)
  (rest : list string) :
  split line TAB = String c p0 :: p1 :: rest ->
  file_status_of_line line
  = Ok (mkFileStatus p1 (status_table c)
          (if Ascii.eqb c "R"%char
           then match rest with [p2] => p1 ++ " => " ++ p2 | _ => "" end
           else "")).
Proof.
  intros H. unfold file_status_of_line. rewrite H.
  destruct p0 as [|x p0];
  destruct c as [[] [] [] [] [] [] [] []];
    destruct rest as [|p2 [|p3 rest]]; reflexivity.
Qed.

Lemma file_status_line_table_witness :
  file_status_of_line ("R100" ++ TAB ++ "old.txt" ++ TAB ++ "new.txt")
  = Ok (mkFileStatus "old.txt" Renamed "old.txt => new.txt") /\
  file_status_of_line ("A" ++ TAB ++ "file.txt")
  = Ok (mkFileStatus "file.txt" Added "").
Proof.
  split.
  - apply (file_status_line_table _ "R"%char "100" "old.txt" ["new.txt"]).
    vm_compute. reflexivity.
  - apply (file_status_line_table _ "A"%char "" "file.txt" []).
    vm_compute. reflexivity.
Defined.

(** C6 (refuted as stated): a Copied line with two path columns gets an
    empty message, not ["<old> => <new>"]. *)
Lemma copied_line_counterexample :
  file_status_of_line ("C100" ++ TAB ++ "old.txt" ++ TAB ++ "new.txt")
  = Ok (mkFileStatus "old.txt" Copied "") /\
  file_status_of_line ("C100" ++ TAB ++ "old.txt" ++ TAB ++ "new.txt")
  <> Ok (mkFileStatus "old.txt" Copied "old.txt => new.txt").
Proof.
  split; [vm_compute; reflexivity|].
  intros H. vm_compute in H. congruence.
Qed.

End FileStatusFacts.

Module FileTreeFacts.
Import FileTree.

Lemma fold_add_line_app (l : list string) (line : string) :
  file_info_list_to_tree (l ++ [line])%list = add_line (file_info_list_to_tree l) line.
Proof. unfold file_info_list_to_tree. rewrite fold_left_app. reflexivity. Qed.

(** C7: the two-level example of the specification builds one directory
    ["a"], holding one directory ["b"], holding the two leaves with their
    mode, object name (hash) and size, directories carrying empty object
    fields; a line whose path has no ['/'] is appended to the root list as
    it is, without looking into the tree. *)
Theorem file_tree_examples :
  file_info_list_to_tree
    [ls_tree_line "100644" "blob" "h1" "10" "a/b/c.txt";
     ls_tree_line "100644" "blob" "h2" "5" "a/b/d.txt"]
  = [mkRepoFileInfo "a" "./" "" "" "" "" true
       [mkRepoFileInfo "b" "a" "" "" "" "" true
          [mkRepoFileInfo "c.txt" "a/b" "100644" "blob" "h1" "10" false [];
           mkRepoFileInfo "d.txt" "a/b" "100644" "blob" "h2" "5" false []]]] /\
  file_info_list_to_tree [ls_tree_line "100644" "blob" "h1" "10" "x.txt"]
  = [mkRepoFileInfo "x.txt" "./" "100644" "blob" "h1" "10" false []] /\
  (forall lines line m t sz nm path,
     split line PARAM_INTERVAL = [m; t; sz; nm; path] ->
     split path "/" = [path] ->
     file_info_list_to_tree (lines ++ [line])%list
     = (file_info_list_to_tree lines
        ++ [mkRepoFileInfo path "./" m t nm (trim sz) (starts_with_tree_mode m) []])%list).
Proof.
  split; [vm_compute; reflexivity|]. split; [vm_compute; reflexivity|].
  intros lines line m t sz nm path Hl Hp.
  rewrite fold_add_line_app. unfold add_line. rewrite Hl, Hp. reflexivity.
Qed.

Lemma file_tree_examples_witness :
  file_info_list_to_tree
    [ls_tree_line "100644" "blob" "h1" "10" "a/b/c.txt";
     ls_tree_line "100644" "blob" "h2" "5" "a/b/d.txt";
     ls_tree_line "100644" "blob" "h3" "7" "x.txt"]
  = [mkRepoFileInfo "a" "./" "" "" "" "" true
       [mkRepoFileInfo "b" "a" "" "" "" "" true
          [mkRepoFileInfo "c.txt" "a/b" "100644" "blob" "h1" "10" false [];
           mkRepoFileInfo "d.txt" "a/b" "100644" "blob" "h2" "5" false []]];
     mkRepoFileInfo "x.txt" "./" "100644" "blob" "h3" "7" false []].
Proof.
  destruct file_tree_examples as [H1 [_ H3]].
  pose proof (H3 [ls_tree_line "100644" "blob" "h1" "10" "a/b/c.txt";
                  ls_tree_line "100644" "blob" "h2" "5" "a/b/d.txt"]
                (ls_tree_line "100644" "blob" "h3" "7" "x.txt")
                "100644" "blob" "7" "h3" "x.txt") as H.
  cbn [app] in H. rewrite H, H1.
  - reflexivity.
  - vm_compute. reflexivity.
  - vm_compute. reflexivity.
Defined.

Lemma wf_eq (n : RepoFileInfo) :
  wf n = (is_dir n || match children n with [] => true | _ => false end)
         && forallb wf (children n).
Proof.
  destruct n as [x y m t o s d c]. reflexivity.
Qed.

Lemma wf_set_children_dir (n : RepoFileInfo) (c : list RepoFileInfo) :
  is_dir n = true -> wf (set_children n c) = forallb wf c.
Proof.
  intros Hd. rewrite wf_eq. destruct n as [x y m t o s d cc]. simpl in *.
  rewrite Hd. reflexivity.
Qed.

Lemma position_dir (l : list RepoFileInfo) seg i :
  position l seg = Some i -> exists n, nth_error l i = Some n /\ is_dir n = true.
Proof.
  revert i. induction l as [|h l IH]; intros i H; simpl in H; [discriminate|].
  destruct (String.eqb (name h) seg && is_dir h) eqn:E.
  - injection H as <-. apply andb_prop in E as [_ E]. exists h. split; auto.
  - destruct (position l seg) as [j|] eqn:Ej; simpl in H; [|discriminate].
    injection H as <-. apply (IH j eq_refl).
Qed.

Lemma modify_nth_wf i f (l : list RepoFileInfo) :
  (forall n, nth_error l i = Some n -> wf n = true -> wf (f n) = true) ->
  forallb wf l = true -> forallb wf (modify_nth i f l) = true.
Proof.
  revert i. induction l as [|h l IH]; intros [|i] Hf Hl; simpl in *; auto;
    apply andb_prop in Hl as [Hh Hl].
  - rewrite (Hf h eq_refl Hh), Hl. reflexivity.
  - rewrite Hh. apply IH; assumption.
Qed.

Lemma insert_segs_wf m t o s segs : forall walked l,
  forallb wf l = true -> forallb wf (insert_segs m t o s walked segs l) = true.
Proof.
  induction segs as [|seg rest IH]; intros walked l Hl; simpl; [exact Hl|].
  destruct (position l seg) as [i|] eqn:Hp.
  - apply modify_nth_wf; [|exact Hl].
    intros n Hn Hw. destruct (position_dir l seg i Hp) as [n' [Hn' Hd]].
    rewrite Hn in Hn'. injection Hn' as <-.
    rewrite (wf_set_children_dir n _ Hd). apply IH.
    rewrite wf_eq in Hw. apply andb_prop in Hw as [_ Hw]. exact Hw.
  - destruct (_ || _) eqn:Hd; rewrite forallb_app, Hl; cbn [andb forallb].
    + cbn [set_children]. rewrite wf_eq. cbn [is_dir children].
      rewrite (IH _ [] eq_refl). reflexivity.
    + reflexivity.
Qed.

Lemma add_line_wf (l : list RepoFileInfo) line :
  forallb wf l = true -> forallb wf (add_line l line) = true.
Proof.
  intros Hl. unfold add_line.
  destruct (split line PARAM_INTERVAL) as [|m [|t [|sz [|nm [|p [|]]]]]];
    try exact Hl.
  destruct (Nat.ltb 1 _).
  - apply insert_segs_wf. exact Hl.
  - rewrite forallb_app, Hl. simpl. rewrite orb_true_r. reflexivity.
Qed.

Lemma node_ext_refl : forall n, node_ext n n.
Proof.
  fix IH 1. intros [x y m t o s d c]. constructor.
  revert c. fix IHl 1. intros [|h c]; constructor; [apply IH | apply IHl].
Qed.

Lemma list_ext_refl (l : list RepoFileInfo) : list_ext l l.
Proof. induction l; constructor; [apply node_ext_refl | assumption]. Qed.

Lemma list_ext_app (l l' extra : list RepoFileInfo) :
  list_ext l l' -> list_ext l (l' ++ extra).
Proof.
  revert l'. induction l as [|h l IH]; intros l' H; [constructor|].
  inversion H; subst. simpl. constructor; [assumption | apply IH; assumption].
Qed.

Lemma modify_nth_ext i f (l : list RepoFileInfo) :
  (forall n, nth_error l i = Some n -> node_ext n (f n)) ->
  list_ext l (modify_nth i f l).
Proof.
  revert i. induction l as [|h l IH]; intros [|i] Hf; simpl; try constructor.
  - apply Hf. reflexivity.
  - apply list_ext_refl.
  - apply node_ext_refl.
  - apply IH. exact Hf.
Qed.

Lemma set_children_ext (n : RepoFileInfo) c :
  list_ext (children n) c -> node_ext n (set_children n c).
Proof. destruct n. simpl. constructor. assumption. Qed.

Lemma insert_segs_ext m t o s segs : forall walked l,
  list_ext l (insert_segs m t o s walked segs l).
Proof.
  induction segs as [|seg rest IH]; intros walked l; simpl; [apply list_ext_refl|].
  destruct (position l seg) as [i|].
  - apply modify_nth_ext. intros n _. apply set_children_ext. apply IH.
  - destruct (_ || _); apply list_ext_app, list_ext_refl.
Qed.

Lemma add_line_ext (l : list RepoFileInfo) line : list_ext l (add_line l line).
Proof.
  unfold add_line.
  destruct (split line PARAM_INTERVAL) as [|m [|t [|sz [|nm [|p [|]]]]]];
    try apply list_ext_refl.
  destruct (Nat.ltb 1 _).
  - apply insert_segs_ext.
  - apply list_ext_app, list_ext_refl.
Qed.

(** C8: in every tree the builder returns, a node with children is a
    directory, at every depth; and adding a line only extends the tree:
    each sibling list keeps its nodes in place and gets new nodes after
    them, so siblings stay in the order they were first met (not sorted,
    as the two root leaves ["b.txt"], ["a.txt"] show). *)
Theorem file_tree_shape (lines : list string) :
  forallb wf (file_info_list_to_tree lines) = true /\
  (forall line, list_ext (file_info_list_to_tree lines)
                         (file_info_list_to_tree (lines ++ [line])%list)) /\
  map name (file_info_list_to_tree
              [ls_tree_line "100644" "blob" "h1" "1" "b.txt";
               ls_tree_line "100644" "blob" "h2" "2" "a.txt"])
  = ["b.txt"; "a.txt"].
Proof.
  split; [|split].
  - unfold file_info_list_to_tree.
    assert (H : forall acc, forallb wf acc = true ->
                forallb wf (fold_left add_line lines acc) = true).
    { induction lines as [|l ls IH]; intros acc Hacc; simpl; [exact Hacc|].
      apply IH. apply add_line_wf. exact Hacc. }
    apply H. reflexivity.
  - intros line. rewrite fold_add_line_app. apply add_line_ext.
  - vm_compute. reflexivity.
Qed.

End FileTreeFacts.

Module RemotesFacts.
Import Remotes.

Lemma permutation_results {A} (c l1 l2 : list A) :
  Permutation l1 c -> Permutation l2 c -> Permutation l1 l2.
Proof. intros H1 H2. eapply Permutation_trans; [exact H1|]. symmetry. exact H2. Qed.

(** C9 (amended): on the same stdout text, any two results of [get_remote]
    hold the same remotes, and any two results of [get_all_authors] the same
    authors, possibly in another order; errors and panics are the same. *)
Theorem parsers_same_up_to_order (out : string) :
  (forall r1 r2, get_remote out r1 -> get_remote out r2 -> same_up_to_order r1 r2) /\
  (forall r1 r2, get_all_authors out r1 -> get_all_authors out r2 ->
                 same_up_to_order r1 r2).
Proof.
  split; intros r1 r2.
  - unfold get_remote. destruct (remotes_map out) as [m| e |].
    + intros [l1 [-> H1]] [l2 [-> H2]]. simpl. eapply permutation_results; eauto.
    + intros -> ->. reflexivity.
    + intros -> ->. reflexivity.
  - unfold get_all_authors. destruct (authors_set out) as [s| e |].
    + intros [l1 [-> H1]] [l2 [-> H2]]. simpl. eapply permutation_results; eauto.
    + intros -> ->. reflexivity.
    + intros -> ->. reflexivity.
Qed.

Definition two_remotes : string :=
  "origin https://example.com/a.git (fetch)" ++ NL ++
  "upstream https://example.com/b.git (fetch)".

Definition origin_remote : Remote :=
  mkRemote "origin" "https://example.com/a.git" ["fetch"].
Definition upstream_remote : Remote :=
  mkRemote "upstream" "https://example.com/b.git" ["fetch"].

Definition two_authors : string :=
  "     3" ++ TAB ++ "alice <alice@example.com>" ++ NL ++
  "     1" ++ TAB ++ "bob <bob@example.com>".

Definition alice : Author := mkAuthor "alice" "<alice@example.com>".
Definition bob : Author := mkAuthor "bob" "<bob@example.com>".

Lemma two_remotes_map :
  remotes_map two_remotes
  = Ok [("origin", origin_remote); ("upstream", upstream_remote)].
Proof. vm_compute. reflexivity. Qed.

Lemma two_authors_set : authors_set two_authors = Ok [alice; bob].
Proof. vm_compute. reflexivity. Qed.

Lemma remote_either_order :
  get_remote two_remotes (Ok [origin_remote; upstream_remote]) /\
  get_remote two_remotes (Ok [upstream_remote; origin_remote]).
Proof.
  unfold get_remote. rewrite two_remotes_map. simpl. split.
  - eexists; split; [reflexivity | apply Permutation_refl].
  - eexists; split; [reflexivity | apply perm_swap].
Qed.

Lemma author_either_order :
  get_all_authors two_authors (Ok [alice; bob]) /\
  get_all_authors two_authors (Ok [bob; alice]).
Proof.
  unfold get_all_authors. rewrite two_authors_set. split.
  - eexists; split; [reflexivity | apply Permutation_refl].
  - eexists; split; [reflexivity | apply perm_swap].
Qed.

Lemma parsers_same_up_to_order_witness :
  same_up_to_order (Ok [origin_remote; upstream_remote])
                   (Ok [upstream_remote; origin_remote]) /\
  same_up_to_order (Ok [alice; bob]) (Ok [bob; alice]).
Proof.
  destruct remote_either_order as [R1 R2].
  destruct author_either_order as [A1 A2].
  split.
  - exact (proj1 (parsers_same_up_to_order two_remotes) _ _ R1 R2).
  - exact (proj2 (parsers_same_up_to_order two_authors) _ _ A1 A2).
Defined.

(** C9 (refuted as stated): on the same stdout text, [get_remote] may return
    its remotes, and [get_all_authors] its authors, in either order. *)
Lemma parsers_order_counterexample :
  ~ (forall out r1 r2, get_remote out r1 -> get_remote out r2 -> r1 = r2) /\
  ~ (forall out r1 r2, get_all_authors out r1 -> get_all_authors out r2 -> r1 = r2).
Proof.
  destruct remote_either_order as [R1 R2].
  destruct author_either_order as [A1 A2].
  split; intros H.
  - specialize (H _ _ _ R1 R2). discriminate H.
  - specialize (H _ _ _ A1 A2). discriminate H.
Qed.

End RemotesFacts.

Module StringFacts.

Lemma str_app_assoc (a b c : string) : ((a ++ b) ++ c) = (a ++ (b ++ c)).
Proof. induction a as [|x a IH]; simpl; [reflexivity | now rewrite IH]. Qed.

Lemma str_app_nil_r (a : string) : (a ++ "") = a.
Proof. induction a as [|x a IH]; simpl; [reflexivity | now rewrite IH]. Qed.

Lemma str_length_app (a b : string) :
  String.length (a ++ b) = String.length a + String.length b.
Proof. induction a as [|x a IH]; simpl; [reflexivity | now rewrite IH]. Qed.

Lemma str_drop_app (a b : string) : str_drop (String.length a) (a ++ b) = b.
Proof. induction a as [|x a IH]; simpl; [reflexivity | exact IH]. Qed.

Lemma str_drop_length n s : String.length (str_drop n s) = String.length s - n.
Proof.
  revert s. induction n as [|n IH]; intros [|c s]; simpl; try lia. apply IH.
Qed.

Lemma prefix_nil (x : string) : String.prefix "" x = true.
Proof. destruct x; reflexivity. Qed.

Lemma prefix_app (a b : string) : String.prefix a (a ++ b) = true.
Proof.
  induction a as [|x a IH]; simpl; [apply prefix_nil|].
  destruct (ascii_dec x x); [exact IH | congruence].
Qed.

Lemma prefix_length a s : String.prefix a s = true -> String.length a <= String.length s.
Proof.
  revert s. induction a as [|x a IH]; intros [|c s] H; simpl in *; try lia;
    try discriminate.
  destruct (ascii_dec x c); [|discriminate]. apply IH in H. lia.
Qed.

Lemma prefix_head_neq h sep c s :
  Ascii.eqb c h = false -> String.prefix (String h sep) (String c s) = false.
Proof.
  intros H. simpl. destruct (ascii_dec h c) as [->|]; [|reflexivity].
  rewrite Ascii.eqb_refl in H. discriminate.
Qed.

Lemma all_chars_app p (a b : string) :
  all_chars p (a ++ b) = all_chars p a && all_chars p b.
Proof.
  induction a as [|x a IH]; simpl; [reflexivity|]. rewrite IH. apply andb_assoc.
Qed.

Lemma split_fuel_nonempty n sep s cur : split_fuel n sep s cur <> [].
Proof.
  revert s cur. induction n as [|n IH]; intros [|c s] cur; cbn [split_fuel];
    try discriminate.
  destruct (String.prefix sep (String c s)); [discriminate | apply IH].
Qed.

Lemma split_nonempty s sep : split s sep <> [].
Proof. apply split_fuel_nonempty. Qed.

(** Enough fuel: [split_fuel] does not depend on how much. *)
Lemma split_fuel_enough h sep' : forall n m s cur,
  String.length s < n -> String.length s < m ->
  split_fuel n (String h sep') s cur = split_fuel m (String h sep') s cur.
Proof.
  induction n as [|n IH]; intros m s cur Hn Hm; [lia|].
  destruct m as [|m]; [lia|]. destruct s as [|c s]; cbn [split_fuel]; [reflexivity|].
  destruct (String.prefix (String h sep') (String c s)) eqn:Hp.
  - f_equal. apply prefix_length in Hp. apply IH; rewrite str_drop_length;
      simpl in *; lia.
  - apply IH; simpl in *; lia.
Qed.

Lemma split_fuel_no_char h sep' a : forall n cur,
  no_char h a = true -> String.length a < n ->
  split_fuel n (String h sep') a cur = [(cur ++ a)%string].
Proof.
  induction a as [|c a IH]; intros n cur Ha Hn; (destruct n as [|n]; [simpl in Hn; lia|]).
  - cbn [split_fuel]. rewrite str_app_nil_r. reflexivity.
  - unfold no_char in Ha. cbn [all_chars] in Ha. apply andb_prop in Ha as [Hc Ha].
    apply negb_true_iff in Hc.
    cbn [split_fuel]. rewrite (prefix_head_neq h sep' c a Hc).
    rewrite IH; [| exact Ha | simpl in Hn; lia].
    rewrite str_app_assoc. reflexivity.
Qed.

(** A text without the first character of the separator is one piece. *)
Lemma split_no_char h sep' a :
  no_char h a = true -> split a (String h sep') = [a].
Proof. intros Ha. unfold split. rewrite split_fuel_no_char; auto. Qed.

Lemma split_fuel_app_sep h sep' b a : forall n cur,
  no_char h a = true -> String.length (a ++ String h sep' ++ b) < n ->
  split_fuel n (String h sep') (a ++ String h sep' ++ b) cur
  = (cur ++ a)%string :: split b (String h sep').
Proof.
  induction a as [|c a IH]; intros n cur Ha Hn; (destruct n as [|n]; [simpl in Hn; lia|]).
  - pose proof (prefix_app (String h sep') b) as Hp.
    pose proof (str_drop_app (String h sep') b) as Hd.
    cbn [append] in Hp, Hd. cbn [append split_fuel]. rewrite Hp, Hd.
    rewrite str_app_nil_r. f_equal.
    unfold split. apply split_fuel_enough; [|lia].
    simpl in Hn. rewrite str_length_app in Hn. lia.
  - unfold no_char in Ha. cbn [all_chars] in Ha. apply andb_prop in Ha as [Hc Ha].
    apply negb_true_iff in Hc.
    cbn [append split_fuel]. rewrite (prefix_head_neq h sep' c _ Hc).
    rewrite IH; [| exact Ha | simpl in Hn |- *; lia].
    rewrite str_app_assoc. reflexivity.
Qed.

(** A text without the first character of the separator is the first piece. *)
Lemma split_app_sep h sep' a b :
  no_char h a = true ->
  split (a ++ String h sep' ++ b) (String h sep') = a :: split b (String h sep').
Proof. intros Ha. unfold split. rewrite split_fuel_app_sep; auto. Qed.

(** With a one-character separator, the first piece never holds it. *)
Lemma split_fuel_first_no_char h : forall n s cur,
  String.length s < n -> no_char h cur = true ->
  match split_fuel n (String h "") s cur with
  | x :: _ => no_char h x = true
  | [] => True
  end.
Proof.
  induction n as [|n IH]; intros s cur Hn Hc; [lia|].
  destruct s as [|c s]; cbn [split_fuel]; [exact Hc|].
  destruct (String.prefix (String h "") (String c s)) eqn:Hp; [exact Hc|].
  apply IH; [simpl in Hn; lia|].
  unfold no_char in *. rewrite all_chars_app, Hc. simpl.
  destruct (Ascii.eqb c h) eqn:E; [|reflexivity].
  apply Ascii.eqb_eq in E. subst c. simpl in Hp.
  destruct (ascii_dec h h); [|congruence]. rewrite prefix_nil in Hp. discriminate.
Qed.

Lemma split_by_app_ws ws c b : ws c = true -> forall a cur,
  split_by ws (a ++ String c b) cur = (split_by ws a cur ++ split_by ws b "")%list.
Proof.
  intros Hc a. induction a as [|x a IH]; intros cur; cbn [append split_by].
  - rewrite Hc. destruct (String.eqb cur ""); reflexivity.
  - destruct (ws x); [|apply IH].
    destruct (String.eqb cur ""); [apply IH | simpl; f_equal; apply IH].
Qed.

Lemma split_by_word ws w : all_chars (fun c => negb (ws c)) w = true -> forall cur,
  (cur ++ w)%string <> "" -> split_by ws w cur = [(cur ++ w)%string].
Proof.
  induction w as [|x w IH]; intros Hw cur Hne.
  - rewrite str_app_nil_r in *. cbn [split_by]. apply String.eqb_neq in Hne.
    rewrite Hne. reflexivity.
  - cbn [all_chars] in Hw. apply andb_prop in Hw as [Hx Hw]. apply negb_true_iff in Hx.
    cbn [split_by]. rewrite Hx. rewrite IH; [| exact Hw |].
    + rewrite str_app_assoc. reflexivity.
    + rewrite str_app_assoc. destruct cur; discriminate.
Qed.

Lemma split_by_lead ws lead rest : all_chars ws lead = true ->
  split_by ws (lead ++ rest) "" = split_by ws rest "".
Proof.
  induction lead as [|x lead IH]; intros H; [reflexivity|].
  cbn [all_chars] in H. apply andb_prop in H as [Hx H].
  cbn [append split_by]. rewrite Hx. apply IH. exact H.
Qed.

Lemma rev_str_app a b : rev_str (a ++ b) = (rev_str b ++ rev_str a).
Proof.
  induction a as [|x a IH]; simpl.
  - rewrite str_app_nil_r. reflexivity.
  - rewrite IH, str_app_assoc. reflexivity.
Qed.

Lemma rev_str_involutive s : rev_str (rev_str s) = s.
Proof.
  induction s as [|x s IH]; simpl; [reflexivity|].
  rewrite rev_str_app. simpl. rewrite IH. reflexivity.
Qed.

Lemma all_chars_rev p s : all_chars p (rev_str s) = all_chars p s.
Proof.
  induction s as [|x s IH]; simpl; [reflexivity|].
  rewrite all_chars_app, IH. simpl. rewrite andb_true_r. apply andb_comm.
Qed.

Lemma trim_start_ws lead s :
  all_chars is_ws lead = true -> trim_start (lead ++ s) = trim_start s.
Proof.
  induction lead as [|x lead IH]; intros H; [reflexivity|].
  cbn [all_chars] in H. apply andb_prop in H as [Hx H].
  cbn [append trim_start]. rewrite Hx. apply IH. exact H.
Qed.

Lemma trim_start_keep s :
  match s with String c _ => is_ws c = false | EmptyString => True end ->
  trim_start s = s.
Proof. destruct s as [|c s]; simpl; [reflexivity|]. intros ->. reflexivity. Qed.

Lemma trim_end_keep s :
  match rev_str s with String c _ => is_ws c = false | EmptyString => True end ->
  trim_end s = s.
Proof.
  unfold trim_end. intros H. rewrite (trim_start_keep (rev_str s) H).
  apply rev_str_involutive.
Qed.

Lemma trim_end_ws s trail :
  all_chars is_ws trail = true -> trim_end (s ++ trail) = trim_end s.
Proof.
  intros H. unfold trim_end. rewrite rev_str_app, trim_start_ws; [reflexivity|].
  rewrite all_chars_rev. exact H.
Qed.

(** [trim] of a text between whitespace, which neither starts nor ends with
    whitespace, is the text. *)
Lemma trim_padded lead s trail :
  all_chars is_ws lead = true -> all_chars is_ws trail = true ->
  match s with String c _ => is_ws c = false | EmptyString => True end ->
  match rev_str s with String c _ => is_ws c = false | EmptyString => True end ->
  trim (lead ++ s ++ trail) = s.
Proof.
  intros Hl Ht Hs He. unfold trim. rewrite trim_start_ws by exact Hl.
  destruct s as [|c s].
  - cbn [append]. rewrite <- (str_app_nil_r trail) at 1.
    rewrite trim_start_ws by exact Ht. reflexivity.
  - cbn [append trim_start]. rewrite Hs.
    change (String c (s ++ trail)) with ((String c s) ++ trail)%string.
    rewrite trim_end_ws by exact Ht. apply trim_end_keep. exact He.
Qed.

(** A token of [split_ascii_whitespace]: non-empty, without ASCII whitespace. *)
Definition word (w : string) : Prop :=
  w <> "" /\ all_chars (fun c => negb (is_ascii_ws c)) w = true.

Lemma all_chars_impl (p q : ascii -> bool) s :
  (forall x, p x = true -> q x = true) -> all_chars p s = true -> all_chars q s = true.
Proof.
  intros Hpq. induction s as [|x s IH]; simpl; [reflexivity|].
  intros H. apply andb_prop in H as [Hx H]. rewrite (Hpq x Hx), (IH H). reflexivity.
Qed.

(** A word holds no character that is ASCII whitespace. *)
Lemma word_no_char w c : word w -> is_ascii_ws c = true -> no_char c w = true.
Proof.
  intros [_ Hw] Hc. unfold no_char. revert Hw. apply all_chars_impl.
  intros x Hx. destruct (Ascii.eqb x c) eqn:E; [|reflexivity].
  apply Ascii.eqb_eq in E. subst x. rewrite Hc in Hx. discriminate.
Qed.

Lemma split_app_char h a b :
  no_char h a = true -> split (a ++ String h b) (String h "") = a :: split b (String h "").
Proof. intros Ha. exact (split_app_sep h "" a b Ha). Qed.

Lemma split_by_app_char ws c b : ws c = true -> forall a cur,
  split_by ws (a ++ String c "" ++ b) cur = (split_by ws a cur ++ split_by ws b "")%list.
Proof. intros Hc a cur. exact (split_by_app_ws ws c b Hc a cur). Qed.

Lemma split_by_one_word ws w :
  w <> "" -> all_chars (fun c => negb (ws c)) w = true -> split_by ws w "" = [w].
Proof. intros Hne Hw. apply (split_by_word ws w Hw ""). exact Hne. Qed.

End StringFacts.

Module UtilFacts.
Import Util.

(** X1: an empty end of the range stands for [HEAD] ([start^..HEAD], or
    [HEAD] itself when the start is empty too), and the range text is never
    empty. *)
Theorem build_commit_range_end_default (start end_ : string) :
  build_commit_range start "" = build_commit_range start "HEAD" /\
  build_commit_range start end_ <> "".
Proof.
  unfold build_commit_range. split.
  - destruct start; reflexivity.
  - destruct start, end_; simpl; discriminate.
Qed.

End UtilFacts.

Module BranchesFacts.
Import StringFacts.

Lemma branch_of_line_ok line :
  exists b, Branches.branch_of_line line = Ok b /\ no_char " "%char b = true.
Proof.
  unfold Branches.branch_of_line, split.
  set (t := trim (trim_start_matches line "*")).
  pose proof (split_fuel_first_no_char " "%char (S (String.length t)) t ""
                (Nat.lt_succ_diag_r _) eq_refl) as H.
  destruct (split_fuel (S (String.length t)) " " t "") as [|b rest] eqn:E.
  - exfalso. exact (split_fuel_nonempty _ _ _ _ E).
  - exists b. split; [reflexivity | exact H].
Qed.

(** X2: [get_branches] never panics: it gives one name per line of the
    output (the first space-separated piece after the ['*'] marker and the
    surrounding whitespace are removed), and no name holds a space. *)
Theorem get_branches_one_name_per_line (stdout : string) :
  exists names, Branches.get_branches stdout = Ok names /\
  length names = length (lines stdout) /\
  Forall (fun b => no_char " "%char b = true) names.
Proof.
  unfold Branches.get_branches. induction (lines stdout) as [|l ls IH].
  - exists []. split; [reflexivity | split; [reflexivity | constructor]].
  - destruct IH as [names [H1 [H2 H3]]].
    destruct (branch_of_line_ok l) as [b [Hb Hs]].
    exists (b :: names). cbn [map LogFormat.collect]. rewrite Hb. cbn [bind].
    rewrite H1. cbn [bind]. split; [reflexivity|]. split.
    + simpl. f_equal. exact H2.
    + constructor; assumption.
Qed.

(** X3: [get_tags] never returns an empty list: an output without tags
    (empty or whitespace only) gives one empty tag name. *)
Theorem get_tags_no_tag (stdout : string) :
  Branches.get_tags stdout <> [] /\
  (trim stdout = "" -> Branches.get_tags stdout = [""]).
Proof.
  split.
  - apply split_nonempty.
  - intros H. unfold Branches.get_tags. rewrite H. reflexivity.
Qed.

Lemma get_tags_no_tag_witness :
  trim NL = "" /\ Branches.get_tags NL = [""].
Proof.
  assert (H : trim NL = "") by (vm_compute; reflexivity).
  split; [exact H | apply (proj2 (get_tags_no_tag NL)); exact H].
Defined.

(** X4: an empty output (no remote, no commit) makes [get_remote],
    [get_all_authors] and [get_branch_authors] panic: the single empty line
    has no second field. *)
Theorem empty_output_panics (stdout : string) :
  trim stdout = "" ->
  (forall r, Remotes.get_remote stdout r <-> r = Panic) /\
  (forall r, Remotes.get_all_authors stdout r <-> r = Panic) /\
  Branches.get_branch_authors stdout = Panic.
Proof.
  intros H.
  assert (Hr : Remotes.remotes_map stdout = Panic)
    by (unfold Remotes.remotes_map; rewrite H; reflexivity).
  assert (Ha : Remotes.authors_set stdout = Panic)
    by (unfold Remotes.authors_set; rewrite H; reflexivity).
  split; [|split].
  - intros r. unfold Remotes.get_remote. rewrite Hr. reflexivity.
  - intros r. unfold Remotes.get_all_authors. rewrite Ha. reflexivity.
  - unfold Branches.get_branch_authors. rewrite H. reflexivity.
Qed.

Lemma empty_output_panics_witness :
  trim "" = "" /\ Remotes.get_remote "" Panic /\ Branches.get_branch_authors "" = Panic.
Proof.
  destruct (empty_output_panics "" eq_refl) as [H1 [_ H3]].
  split; [reflexivity | split; [apply H1; reflexivity | exact H3]].
Defined.

Lemma add_remote_keys m nm u op :
  map fst (Remotes.add_remote m nm u op) = map fst m \/
  (map fst (Remotes.add_remote m nm u op) = (map fst m ++ [nm])%list /\
   ~ In nm (map fst m)).
Proof.
  induction m as [|[k r] m IH]; simpl.
  - right. split; [reflexivity | intros []].
  - destruct (String.eqb k nm) eqn:E; simpl; [left; reflexivity|].
    apply String.eqb_neq in E.
    destruct IH as [IH | [IH Hn]]; rewrite IH; [left; reflexivity|].
    right. split; [reflexivity|]. intros [H|H]; [congruence | contradiction].
Qed.

Lemma add_remote_entries m nm u op :
  Forall (fun p => Remotes.name (snd p) = fst p /\ Remotes.operate (snd p) <> []) m ->
  Forall (fun p => Remotes.name (snd p) = fst p /\ Remotes.operate (snd p) <> [])
    (Remotes.add_remote m nm u op).
Proof.
  induction m as [|[k r] m IH]; simpl; intros H.
  - repeat constructor. discriminate.
  - inversion H as [|? ? [Hn Ho] Hm]; subst.
    destruct (String.eqb k nm) eqn:E; constructor; simpl in *; auto.
    split; [exact Hn|]. destruct (Remotes.operate r); simpl; discriminate.
Qed.

Lemma remotes_map_inv stdout m :
  Remotes.remotes_map stdout = Ok m ->
  NoDup (map fst m) /\
  Forall (fun p => Remotes.name (snd p) = fst p /\ Remotes.operate (snd p) <> []) m.
Proof.
  unfold Remotes.remotes_map.
  assert (G : forall ls acc,
    NoDup (map fst acc) ->
    Forall (fun p => Remotes.name (snd p) = fst p /\ Remotes.operate (snd p) <> []) acc ->
    Remotes.fold_outcome Remotes.remote_line acc ls = Ok m ->
    NoDup (map fst m) /\
    Forall (fun p => Remotes.name (snd p) = fst p /\ Remotes.operate (snd p) <> []) m).
  { induction ls as [|l ls IH]; intros acc Hd Hf H; simpl in H.
    - injection H as <-. split; assumption.
    - inv_bind H. apply (IH a); [| | exact H].
      + unfold Remotes.remote_line in Ha. inv_bind Ha. inv_bind Ha. inv_bind Ha.
        injection Ha as <-.
        destruct (add_remote_keys acc a0 a1
                    (trim_end_matches (trim_start_matches a2 "(") ")"))
          as [E | [E Hn]]; rewrite E; [exact Hd|].
        apply NoDup_app; [exact Hd | repeat constructor; intros [] |].
        intros x Hx [<-|[]]. contradiction.
      + unfold Remotes.remote_line in Ha. inv_bind Ha. inv_bind Ha. inv_bind Ha.
        injection Ha as <-. apply add_remote_entries. exact Hf. }
  apply G; constructor.
Qed.

(** X5: every result of [get_remote] names each remote once, and each
    remote lists at least one operation. *)
Theorem get_remote_unique_names (stdout : string) (l : list Remotes.Remote) :
  Remotes.get_remote stdout (Ok l) ->
  NoDup (map Remotes.name l) /\ Forall (fun r => Remotes.operate r <> []) l.
Proof.
  unfold Remotes.get_remote. destruct (Remotes.remotes_map stdout) as [m| |] eqn:E;
    [|discriminate|discriminate].
  intros [l' [Hl Hp]]. injection Hl as <-.
  destruct (remotes_map_inv stdout m E) as [Hd Hf].
  assert (Hn : map Remotes.name (map snd m) = map fst m).
  { clear Hd Hp E. induction m as [|[k r] m IH]; [reflexivity|].
    inversion Hf as [|? ? [Hn _] Hm]; subst. simpl in *. rewrite Hn, IH by exact Hm.
    reflexivity. }
  split.
  - eapply Permutation_NoDup; [apply Permutation_map; symmetry; exact Hp|].
    rewrite Hn. exact Hd.
  - apply Forall_forall. intros r Hr.
    apply (Permutation_in _ Hp) in Hr. apply in_map_iff in Hr as [[k r'] [<- Hin]].
    rewrite Forall_forall in Hf. apply (Hf _ Hin).
Qed.

Lemma get_remote_unique_names_witness :
  Remotes.get_remote ("origin u (fetch)" ++ NL ++ "origin u (push)")
    (Ok [Remotes.mkRemote "origin" "u" ["fetch"; "push"]]) /\
  NoDup (map Remotes.name [Remotes.mkRemote "origin" "u" ["fetch"; "push"]]).
Proof.
  assert (H : Remotes.get_remote ("origin u (fetch)" ++ NL ++ "origin u (push)")
                (Ok [Remotes.mkRemote "origin" "u" ["fetch"; "push"]])).
  { unfold Remotes.get_remote. vm_compute.
    eexists; split; [reflexivity | apply Permutation_refl]. }
  split; [exact H | exact (proj1 (get_remote_unique_names _ _ H))].
Defined.



Lemma author_eqb_refl a : author_eqb a a = true.
Proof. unfold author_eqb. rewrite !String.eqb_refl. reflexivity. Qed.

Lemma set_insert_nodup s a : NoDup s -> NoDup (Remotes.set_insert s a).
Proof.
  unfold Remotes.set_insert. intros Hs.
  destruct (existsb (author_eqb a) s) eqn:E; [exact Hs|].
  eapply Permutation_NoDup; [apply Permutation_cons_append|].
  constructor; [|exact Hs]. intros Hin.
  assert (Ht : existsb (author_eqb a) s = true)
    by (apply existsb_exists; exists a; split; [exact Hin | apply author_eqb_refl]).
  congruence.
Qed.

(** X7: [get_all_authors] never returns an author twice. *)
Theorem get_all_authors_no_duplicates (stdout : string) (l : list Author) :
  Remotes.get_all_authors stdout (Ok l) -> NoDup l.
Proof.
  unfold Remotes.get_all_authors, Remotes.authors_set.
  assert (G : forall ls acc s, NoDup acc ->
            Remotes.fold_outcome Remotes.author_line acc ls = Ok s -> NoDup s).
  { induction ls as [|x ls IH]; intros acc s Hacc H; simpl in H.
    - injection H as <-. exact Hacc.
    - inv_bind H. apply (IH a); [|exact H].
      unfold Remotes.author_line in Ha. inv_bind Ha. inv_bind Ha. injection Ha as <-.
      apply set_insert_nodup. exact Hacc. }
  destruct (Remotes.fold_outcome Remotes.author_line [] (split (trim stdout) NL))
    as [s| |] eqn:E; [|discriminate|discriminate].
  intros [l' [Hl Hp]]. injection Hl as <-.
  eapply Permutation_NoDup; [symmetry; exact Hp|]. eapply G; [constructor | exact E].
Qed.

Lemma get_all_authors_no_duplicates_witness :
  Remotes.get_all_authors
    ("     3" ++ TAB ++ "alice <a@x>" ++ NL ++ "     1" ++ TAB ++ "alice <a@x>")
    (Ok [mkAuthor "alice" "<a@x>"]) /\
  NoDup [mkAuthor "alice" "<a@x>"].
Proof.
  assert (H : Remotes.get_all_authors
                ("     3" ++ TAB ++ "alice <a@x>" ++ NL ++ "     1" ++ TAB ++ "alice <a@x>")
                (Ok [mkAuthor "alice" "<a@x>"])).
  { unfold Remotes.get_all_authors. vm_compute.
    eexists; split; [reflexivity | apply Permutation_refl]. }
  split; [exact H | exact (get_all_authors_no_duplicates _ _ H)].
Defined.

(** X8: on a [git shortlog -sne] line whose author name has two words, both
    author readers take the first word as the name and the second word as
    the email; the email itself is dropped. *)
Theorem author_two_word_name (lead cnt w1 w2 em : string) (s l : list Author) :
  all_chars is_ascii_ws lead = true ->
  word cnt -> word w1 -> word w2 -> word em ->
  Remotes.author_line s (lead ++ cnt ++ TAB ++ w1 ++ " " ++ w2 ++ " " ++ em)
  = Ok (Remotes.set_insert s (mkAuthor w1 w2)) /\
  Branches.branch_author_line l (lead ++ cnt ++ TAB ++ w1 ++ " " ++ w2 ++ " " ++ em)
  = Ok (l ++ [mkAuthor w1 w2])%list.
Proof.
  intros Hl [Hc Hc'] [H1 H1'] [H2 H2'] [He He'].
  assert (Hk : split_ascii_whitespace (lead ++ cnt ++ TAB ++ w1 ++ " " ++ w2 ++ " " ++ em)
               = [cnt; w1; w2; em]).
  { unfold split_ascii_whitespace, TAB. rewrite split_by_lead by exact Hl.
    rewrite !split_by_app_char by reflexivity.
    rewrite !split_by_one_word by assumption. reflexivity. }
  unfold Remotes.author_line, Branches.branch_author_line. rewrite Hk.
  split; reflexivity.
Qed.

Lemma author_two_word_name_witness :
  Remotes.author_line []
    ("     " ++ "3" ++ TAB ++ "Alice" ++ " " ++ "Smith" ++ " " ++ "<alice@example.com>")
  = Ok [mkAuthor "Alice" "Smith"].
Proof.
  assert (W : forall w, w <> "" -> all_chars (fun c => negb (is_ascii_ws c)) w = true ->
              word w) by (intros; split; assumption).
  destruct (author_two_word_name "     " "3" "Alice" "Smith" "<alice@example.com>" [] [])
    as [H _];
    [reflexivity | apply W; [discriminate | reflexivity] .. |].
  rewrite H. reflexivity.
Defined.



End BranchesFacts.

Module FileDiffFacts.
Import StringFacts FileStatus.

Lemma list_ascii_app a b :
  list_ascii_of_string (a ++ b) = (list_ascii_of_string a ++ list_ascii_of_string b)%list.
Proof. induction a as [|c a IH]; simpl; [reflexivity | rewrite IH; reflexivity]. Qed.

Lemma list_ascii_length a : length (list_ascii_of_string a) = String.length a.
Proof. induction a as [|c a IH]; simpl; [reflexivity | rewrite IH; reflexivity]. Qed.

(** X10: [is_binary] looks at the first 8000 bytes only: a content found
    binary stays binary whatever follows, and once the content has 8000
    bytes, what follows is never read. *)
Theorem is_binary_first_8000 (s t : string) :
  (FileDiff.is_binary s = true -> FileDiff.is_binary (s ++ t) = true) /\
  (8000 <= String.length s -> FileDiff.is_binary (s ++ t) = FileDiff.is_binary s).
Proof.
  unfold FileDiff.is_binary. rewrite list_ascii_app, firstn_app, existsb_app.
  rewrite list_ascii_length. split.
  - intros H. rewrite H. reflexivity.
  - intros H. replace (8000 - String.length s) with 0 by lia.
    rewrite firstn_O, orb_false_r. reflexivity.
Qed.

Lemma is_binary_first_8000_witness :
  8000 <= String.length (string_of_list_ascii (repeat "a"%char 8000)) /\
  FileDiff.is_binary (string_of_list_ascii (repeat "a"%char 8000) ++ String Ascii.zero "")
  = false.
Proof.
  assert (H : 8000 <= String.length (string_of_list_ascii (repeat "a"%char 8000)))
    by (apply Nat.leb_le; vm_compute; reflexivity).
  split; [exact H|].
  rewrite (proj2 (is_binary_first_8000 _ (String Ascii.zero "")) H).
  vm_compute. reflexivity.
Defined.

(** X11: [parse_file_status] compares the whole flag: a one-letter flag is
    read with the table A, D, M, R, C, U (anything else is [Unknown]), and a
    flag of two or more characters, such as the [R100] of a rename, or an
    empty flag, is always [Unknown]. *)
Theorem parse_file_status_whole_flag (flag : string) :
  FileDiff.parse_file_status flag =
  match flag with
  | String c EmptyString => status_table c
  | _ => Unknown
  end.
Proof.
  destruct flag as [|c [|c' s]]; [reflexivity| |];
    destruct c as [[] [] [] [] [] [] [] []]; reflexivity.
Qed.

(** X12: on an empty [git] output, [get_commit_file_status] and
    [get_files_status_between_commit] panic (the one empty line has no
    field), while [get_file_between_commit_status] reports
    ["No status found"]. *)
Theorem status_readers_empty_output (stdout : string) :
  trim stdout = "" ->
  FileDiff.get_commit_file_status stdout = Panic /\
  FileDiff.get_files_status_between_commit stdout = Panic /\
  FileDiff.get_file_between_commit_status stdout = Err "No status found".
Proof.
  intros H. unfold FileDiff.get_commit_file_status,
    FileDiff.get_files_status_between_commit, FileDiff.get_file_between_commit_status.
  rewrite H. split; [|split]; reflexivity.
Qed.

Lemma status_readers_empty_output_witness :
  trim NL = "" /\ FileDiff.get_commit_file_status NL = Panic.
Proof.
  assert (H : trim NL = "") by (vm_compute; reflexivity).
  split; [exact H | exact (proj1 (status_readers_empty_output NL H))].
Defined.

Lemma tab_ws : is_ascii_ws (ascii_of_nat 9) = true.
Proof. reflexivity. Qed.

Lemma tokens2 a b : word a -> word b -> split_ascii_whitespace (a ++ TAB ++ b) = [a; b].
Proof.
  intros [Ha Ha'] [Hb Hb']. unfold split_ascii_whitespace, TAB.
  rewrite split_by_app_char by reflexivity.
  rewrite !split_by_one_word by assumption. reflexivity.
Qed.

Lemma tokens3 a b c sep :
  is_ascii_ws sep = true -> word a -> word b -> word c ->
  split_ascii_whitespace (a ++ TAB ++ b ++ String sep "" ++ c) = [a; b; c].
Proof.
  intros Hs [Ha Ha'] [Hb Hb'] [Hc Hc']. unfold split_ascii_whitespace, TAB.
  rewrite !split_by_app_char by first [assumption | reflexivity].
  rewrite !split_by_one_word by assumption. reflexivity.
Qed.

Lemma tab_fields2 a b :
  no_char (ascii_of_nat 9) a = true -> no_char (ascii_of_nat 9) b = true ->
  split (a ++ TAB ++ b) TAB = [a; b].
Proof.
  intros Ha Hb. unfold TAB. rewrite split_app_sep by exact Ha.
  rewrite split_no_char by exact Hb. reflexivity.
Qed.

(** X13: on a [--name-status] line whose flag and paths hold no whitespace,
    the status reader of [get_files_status_between_commit] agrees with the
    one of [get_commit_file_status], for a one-path line and for a rename
    line with two paths. *)
Theorem status_parsers_agree (c : ascii) (f p1 p2 : string) :
  word (String c f) -> word p1 -> word p2 ->
  FileDiff.status_line (String c f ++ TAB ++ p1)
  = file_status_of_line (String c f ++ TAB ++ p1) /\
  FileDiff.status_line (String c f ++ TAB ++ p1 ++ TAB ++ p2)
  = file_status_of_line (String c f ++ TAB ++ p1 ++ TAB ++ p2).
Proof.
  intros Hf H1 H2.
  pose proof (word_no_char _ _ Hf tab_ws) as Tf.
  pose proof (word_no_char _ _ H1 tab_ws) as T1.
  pose proof (word_no_char _ _ H2 tab_ws) as T2.
  split.
  - unfold FileDiff.status_line, file_status_of_line.
    rewrite tokens2 by assumption. rewrite tab_fields2 by assumption.
    destruct f as [|x f]; destruct c as [[] [] [] [] [] [] [] []]; reflexivity.
  - unfold FileDiff.status_line, file_status_of_line.
    rewrite (tokens3 _ _ _ (ascii_of_nat 9)) by first [assumption | reflexivity].
    unfold TAB. rewrite split_app_sep by exact Tf.
    fold TAB. rewrite tab_fields2 by assumption.
    destruct f as [|x f]; destruct c as [[] [] [] [] [] [] [] []]; reflexivity.
Qed.

Lemma word_intro w : w <> "" -> all_chars (fun c => negb (is_ascii_ws c)) w = true -> word w.
Proof. intros; split; assumption. Qed.

Lemma status_parsers_agree_witness :
  FileDiff.status_line ("R100" ++ TAB ++ "a.txt" ++ TAB ++ "b.txt")
  = file_status_of_line ("R100" ++ TAB ++ "a.txt" ++ TAB ++ "b.txt").
Proof.
  apply (status_parsers_agree "R"%char "100" "a.txt" "b.txt");
    apply word_intro; first [discriminate | reflexivity].
Defined.

(** X14: a path holding a space is cut at the space by the reader of
    [get_files_status_between_commit] (which splits the line at any
    whitespace): it reports the first word as the path, and with an [R]
    flag it takes the second word for the new name; the reader of
    [get_commit_file_status] (which splits at tabs) keeps the whole path. *)
Theorem status_path_with_space (c : ascii) (f p1 p2 : string) :
  word (String c f) -> word p1 -> word p2 ->
  FileDiff.status_line (String c f ++ TAB ++ p1 ++ " " ++ p2)
  = Ok (mkFileStatus p1 (status_table c)
          (if Ascii.eqb c "R"%char then p1 ++ " => " ++ p2 else "")) /\
  file_status_of_line (String c f ++ TAB ++ p1 ++ " " ++ p2)
  = Ok (mkFileStatus (p1 ++ " " ++ p2) (status_table c) "").
Proof.
  intros Hf H1 H2.
  pose proof (word_no_char _ _ Hf tab_ws) as Tf.
  pose proof (word_no_char _ _ H1 tab_ws) as T1.
  pose proof (word_no_char _ _ H2 tab_ws) as T2.
  assert (T12 : no_char (ascii_of_nat 9) (p1 ++ " " ++ p2) = true).
  { unfold no_char in *. rewrite !all_chars_app, T1, T2. reflexivity. }
  split.
  - unfold FileDiff.status_line.
    rewrite (tokens3 _ _ _ " "%char) by first [reflexivity | assumption].
    destruct f as [|x f]; destruct c as [[] [] [] [] [] [] [] []]; reflexivity.
  - unfold file_status_of_line. rewrite tab_fields2 by assumption.
    destruct f as [|x f]; destruct c as [[] [] [] [] [] [] [] []]; reflexivity.
Qed.

Lemma status_path_with_space_witness :
  FileDiff.status_line ("M" ++ TAB ++ "my" ++ " " ++ "file.txt")
  = Ok (mkFileStatus "my" Modified "").
Proof.
  apply (status_path_with_space "M"%char "" "my" "file.txt");
    apply word_intro; first [discriminate | reflexivity].
Defined.

End FileDiffFacts.

Module ShortstatExtraFacts.
Import Shortstat ShortstatFacts StringFacts.

Lemma digit_not_ws c : is_digit c = true -> is_ws c = false.
Proof.
  destruct c as [[] [] [] [] [] [] [] []]; cbv; intros H;
    first [reflexivity | discriminate H].
Qed.

Lemma ws_not_digit c : is_ws c = true -> negb (is_digit c) = true.
Proof.
  destruct c as [[] [] [] [] [] [] [] []]; cbv; intros H;
    first [reflexivity | discriminate H].
Qed.

Lemma digits_no_char c d : is_digit c = false -> all_digits d = true -> no_char c d = true.
Proof.
  intros Hc. induction d as [|x d IH]; intros H; [reflexivity|].
  cbn [all_digits] in H. apply andb_prop in H as [Hx H].
  unfold no_char. cbn [all_chars]. fold (no_char c d). rewrite (IH H), andb_true_r.
  destruct (Ascii.eqb x c) eqn:E; [|reflexivity].
  apply Ascii.eqb_eq in E. subst. congruence.
Qed.

Lemma parse_any_digit_head d m :
  is_digit d = true ->
  parse_i32_any (String d m) = if all_digits m then parse_i32_unwrap (String d m) else Panic.
Proof.
  destruct d as [[] [] [] [] [] [] [] []]; intros H; cbv in H;
    first [discriminate H | reflexivity].
Qed.

(** On a count as [git] prints it, [parse_i32_any] is [parse_i32_unwrap]. *)
Lemma parse_any_count m :
  count_text m -> (digits_value 0 m <= I32_MAX)%Z -> parse_i32_any m = Ok (digits_value 0 m).
Proof.
  intros [Hne Hd] Hv. destruct m as [|d m]; [congruence|].
  cbn [all_digits] in Hd. apply andb_prop in Hd as [Hd Hm].
  rewrite (parse_any_digit_head d m Hd), Hm. unfold parse_i32_unwrap.
  apply Z.leb_le in Hv. rewrite Hv. reflexivity.
Qed.

Lemma captures_skip c s : is_digit c = false -> captures (String c "" ++ s) = captures s.
Proof.
  intros H. cbn [append captures]. unfold match_at, digits1. cbn [take_digits].
  rewrite H. reflexivity.
Qed.

Lemma captures_no_digit s :
  all_chars (fun c => negb (is_digit c)) s = true -> captures s = None.
Proof.
  induction s as [|c s IH]; intros H; [reflexivity|].
  cbn [all_chars] in H. apply andb_prop in H as [Hc H]. apply negb_true_iff in Hc.
  cbn [captures]. unfold match_at, digits1. cbn [take_digits]. rewrite Hc.
  cbn. exact (IH H).
Qed.

Lemma count_head_not_ws n x :
  count_text n -> match (n ++ x)%string with String c _ => is_ws c = false | EmptyString => True end.
Proof.
  intros [Hne Hd]. destruct n as [|d n]; [congruence|].
  cbn [all_digits] in Hd. apply andb_prop in Hd as [Hd _]. apply digit_not_ws. exact Hd.
Qed.

Lemma rev_end (P : Prop) x y :
  match rev_str y with String c _ => is_ws c = false | EmptyString => False end ->
  match rev_str (x ++ y) with String c _ => is_ws c = false | EmptyString => P end.
Proof.
  intros H. rewrite rev_str_app. destruct (rev_str y) as [|c r]; [contradiction|].
  exact H.
Qed.

Lemma split_comma a b rest :
  no_char ","%char a = true -> no_char ","%char b = true ->
  split (a ++ b ++ ", " ++ rest) ", " = (a ++ b) :: split rest ", ".
Proof.
  intros Ha Hb. rewrite <- (str_app_assoc a b). apply split_app_sep.
  unfold no_char in *. rewrite all_chars_app, Ha, Hb. reflexivity.
Qed.

Lemma count_no_char c n : is_digit c = false -> count_text n -> no_char c n = true.
Proof. intros Hc [_ Hn]. exact (digits_no_char c n Hc Hn). Qed.

Ltac side_chars :=
  unfold no_char; rewrite ?all_chars_app;
  repeat match goal with
  | H : count_text ?d |- context [all_chars _ ?d] =>
      fold (no_char ","%char d); rewrite (count_no_char ","%char d eq_refl H)
  | H : count_text ?d |- context [all_chars _ ?d] =>
      fold (no_char " "%char d); rewrite (count_no_char " "%char d eq_refl H)
  end; reflexivity.

(** X15: on a one-clause-per-count shortstat line as [git diff --shortstat]
    prints it (leading space, final newline, singular or plural words), the
    hand-written reader of the [Modified] arm of [diff_file_context] and the
    regex reader behind [get_file_modify_stat_between_commit] give the same
    (insertions, deletions), with a missing clause read as 0. *)
Theorem modified_stat_agrees (path h1 h2 fc iw dw n m k : string) :
  fc = " file changed" \/ fc = " files changed" ->
  iw = " insertion(+)" \/ iw = " insertions(+)" ->
  dw = " deletion(-)" \/ dw = " deletions(-)" ->
  count_text n -> count_text m -> count_text k ->
  (digits_value 0 n <= I32_MAX)%Z -> (digits_value 0 m <= I32_MAX)%Z ->
  (digits_value 0 k <= I32_MAX)%Z ->
  FileDiff.modified_change_stat (" " ++ (n ++ fc ++ ", " ++ m ++ iw ++ ", " ++ k ++ dw) ++ NL)
  = Ok (digits_value 0 m, digits_value 0 k) /\
  FileDiff.get_file_modify_stat_between_commit path h1 h2
    (" " ++ (n ++ fc ++ ", " ++ m ++ iw ++ ", " ++ k ++ dw) ++ NL)
  = Ok (digits_value 0 m, digits_value 0 k) /\
  FileDiff.modified_change_stat (" " ++ (n ++ fc ++ ", " ++ m ++ iw) ++ NL)
  = Ok (digits_value 0 m, 0%Z) /\
  FileDiff.get_file_modify_stat_between_commit path h1 h2
    (" " ++ (n ++ fc ++ ", " ++ m ++ iw) ++ NL)
  = Ok (digits_value 0 m, 0%Z) /\
  FileDiff.modified_change_stat (" " ++ (n ++ fc ++ ", " ++ k ++ dw) ++ NL)
  = Ok (0%Z, digits_value 0 k) /\
  FileDiff.get_file_modify_stat_between_commit path h1 h2
    (" " ++ (n ++ fc ++ ", " ++ k ++ dw) ++ NL)
  = Ok (0%Z, digits_value 0 k).
Proof.
  intros Hfc Hiw Hdw Hn Hm Hk Vn Vm Vk.
  destruct Hfc as [-> | ->]; destruct Hiw as [-> | ->]; destruct Hdw as [-> | ->];
  (split; [|split; [|split; [|split; [|split]]]]);
  first
  [ (* the hand-written reader *)
    unfold FileDiff.modified_change_stat;
    rewrite trim_padded;
    [ | reflexivity | reflexivity | apply count_head_not_ws; exact Hn
      | repeat apply rev_end; simpl; reflexivity ];
    rewrite !split_comma by side_chars;
    rewrite split_no_char by side_chars;
    cbn -[split parse_i32_any digits_value];
    rewrite ?split_app_char by side_chars;
    cbn -[split parse_i32_any digits_value];
    rewrite ?(parse_any_count m Hm Vm), ?(parse_any_count k Hk Vk);
    reflexivity
  | (* the regex reader *)
    unfold FileDiff.get_file_modify_stat_between_commit, log_shortstat_parse;
    rewrite captures_skip by reflexivity; rewrite !str_app_assoc;
    first
    [ rewrite (captures_at_head _ (n, Some m, Some k));
      [ cbn iota beta; rewrite (parse_count n Vn), (parse_count m Vm), (parse_count k Vk);
        reflexivity
      | unfold match_at, digits1; digits_run; unfold opt_clause, digits1; digits_run;
        reflexivity ]
    | rewrite (captures_at_head _ (n, Some m, None));
      [ cbn iota beta; rewrite (parse_count n Vn), (parse_count m Vm); reflexivity
      | unfold match_at, digits1; digits_run; unfold opt_clause, digits1; digits_run;
        reflexivity ]
    | rewrite (captures_at_head _ (n, None, Some k));
      [ cbn iota beta; rewrite (parse_count n Vn), (parse_count k Vk); reflexivity
      | unfold match_at, digits1; digits_run; unfold opt_clause, digits1; digits_run;
        reflexivity ] ] ].
Qed.

Lemma modified_stat_agrees_witness :
  FileDiff.modified_change_stat
    (" " ++ ("1" ++ " file changed" ++ ", " ++ "2" ++ " insertions(+)" ++ ", " ++ "3"
             ++ " deletions(-)") ++ NL)
  = Ok (2%Z, 3%Z).
Proof.
  refine (proj1 (modified_stat_agrees "" "" "" " file changed" " insertions(+)"
                   " deletions(-)" "1" "2" "3" _ _ _ _ _ _ _ _ _)).
  all: first [ left; reflexivity | right; reflexivity | split; [discriminate | reflexivity]
             | apply Z.leb_le; reflexivity ].
Defined.

(** X16: on an output made of whitespace only (a diff with no change), the
    hand-written reader of [diff_file_context] panics (there is no second
    piece), while [get_file_modify_stat_between_commit] and
    [get_diff_file_stat_between_commit] return their error. *)
Theorem diff_stat_whitespace_output (path h1 h2 s : string) :
  all_chars is_ws s = true ->
  FileDiff.modified_change_stat s = Panic /\
  FileDiff.get_file_modify_stat_between_commit path h1 h2 s
  = Err ("Failed to get file change status:" ++ NL ++ "Repository path: " ++ path
         ++ NL ++ "commit hash1: " ++ h1 ++ NL ++ "commit hash2: " ++ h2) /\
  FileDiff.get_diff_file_stat_between_commit s = Err "File to parse git diff shortstat".
Proof.
  intros H.
  assert (Ht : trim s = "").
  { unfold trim. rewrite <- (str_app_nil_r s). rewrite trim_start_ws by exact H.
    reflexivity. }
  assert (Hc : captures s = None).
  { apply captures_no_digit. revert H. apply all_chars_impl. exact ws_not_digit. }
  unfold FileDiff.modified_change_stat, FileDiff.get_file_modify_stat_between_commit,
    FileDiff.get_diff_file_stat_between_commit, log_shortstat_parse.
  rewrite Ht, Hc. split; [|split]; reflexivity.
Qed.

Lemma diff_stat_whitespace_output_witness :
  FileDiff.modified_change_stat (" " ++ NL) = Panic /\
  FileDiff.get_diff_file_stat_between_commit (" " ++ NL) = Err "File to parse git diff shortstat".
Proof.
  destruct (diff_stat_whitespace_output "" "" "" (" " ++ NL) eq_refl) as [H1 [_ H3]].
  split; [exact H1 | exact H3].
Defined.

Lemma word_file_changed rest :
  word_opt_s " file" " changed" (" file changed" ++ rest) = Some rest /\
  word_opt_s " file" " changed" (" files changed" ++ rest) = Some rest.
Proof. split; unfold word_opt_s; simpl; rewrite prefix_empty; reflexivity. Qed.

(** X17: [log_shortstat_parse] returns ["No match found!"] on a text with
    no digit, and panics when the files-changed count at the head of the
    text is above [i32::MAX], whatever follows. *)
Theorem shortstat_no_digit_or_overflow (s n fc rest : string) :
  (all_chars (fun c => negb (is_digit c)) s = true ->
   log_shortstat_parse s = Err "No match found!") /\
  (count_text n -> (I32_MAX < digits_value 0 n)%Z ->
   fc = " file changed" \/ fc = " files changed" ->
   log_shortstat_parse (n ++ fc ++ rest) = Panic).
Proof.
  split.
  - intros H. unfold log_shortstat_parse. rewrite (captures_no_digit s H). reflexivity.
  - intros Hn Vn Hfc. unfold log_shortstat_parse.
    destruct (opt_clause " insertion" "(+)" rest) as [i r2] eqn:E1.
    destruct (opt_clause " deletion" "(-)" r2) as [d r3] eqn:E2.
    rewrite (captures_at_head _ (n, i, d)).
    + cbn iota beta. unfold parse_group, parse_i32_unwrap.
      apply Z.leb_gt in Vn. rewrite Vn. reflexivity.
    + unfold match_at, digits1.
      destruct Hfc as [-> | ->];
        (rewrite (take_digits_app n); [| exact (proj2 Hn) | reflexivity]);
        cbv beta iota zeta; rewrite (eqb_nonempty n (proj1 Hn));
        cbv beta iota zeta;
        rewrite ?(proj1 (word_file_changed rest)), ?(proj2 (word_file_changed rest));
        rewrite E1, E2; reflexivity.
Qed.

Lemma shortstat_no_digit_or_overflow_witness :
  log_shortstat_parse "nothing" = Err "No match found!" /\
  log_shortstat_parse ("3000000000" ++ " files changed" ++ ", 1 insertion(+)") = Panic.
Proof.
  destruct (shortstat_no_digit_or_overflow "nothing" "3000000000" " files changed"
              ", 1 insertion(+)") as [H1 H2].
  split; [apply H1; reflexivity|].
  apply H2; [split; [discriminate | reflexivity] | apply Z.ltb_lt; reflexivity | right; reflexivity].
Defined.

End ShortstatExtraFacts.

Module ContributeExtraFacts.
Import Contribute ContributeFacts.

(** A record of the loop that is not skipped: a header and a stat line. *)
Definition two_lines (c : string) : bool :=
  Nat.eqb (length (split (trim_end_matches c NL) NL)) 2.

(** The date field ([%at]) of a record of two lines. *)
Definition commit_date (c : string) : option string :=
  match split (trim_end_matches c NL) NL with
  | [l0; _] => nth_error (split l0 PARAM_INTERVAL) 2
  | _ => None
  end.

(** The total stat: two day entries per count entry. *)
Definition total_shape (s : StatDailyContribute) : Prop :=
  length (data_list s) = 2 * length (insertion s) /\
  length (deletions s) = length (insertion s) /\
  length (change_files s) = length (insertion s).

Lemma wrap_i32_succ k : wrap_i32 (wrap_i32 k + 1) = wrap_i32 (k + 1).
Proof.
  unfold wrap_i32.
  replace ((k + 2 ^ 31) mod 2 ^ 32 - 2 ^ 31 + 1 + 2 ^ 31)%Z
    with ((k + 2 ^ 31) mod 2 ^ 32 + 1)%Z by ring.
  rewrite Zplus_mod_idemp_l.
  replace (k + 2 ^ 31 + 1)%Z with (k + 1 + 2 ^ 31)%Z by ring. reflexivity.
Qed.

Lemma commit_date_two_lines c d : commit_date c = Some d -> two_lines c = true.
Proof.
  unfold commit_date, two_lines.
  destruct (split (trim_end_matches c NL) NL) as [|l0 [|l1 [|l2 r]]];
    first [discriminate | reflexivity].
Qed.

Lemma step_total st c st' :
  step st c = Ok st' ->
  (two_lines c = false /\ st' = st) \/
  (two_lines c = true /\
   exists date chg ins del, commit_date c = Some date /\
     update_total (total st) date chg ins del = Ok (total st')).
Proof.
  unfold step, two_lines, commit_date. intros H.
  destruct (split (trim_end_matches c NL) NL) as [|l0 [|l1 [|l2 r]]];
    cbn [length Nat.eqb negb] in H |- *;
    try (left; split; [reflexivity | injection H as <-; reflexivity]).
  right. split; [reflexivity|]. cbn [index nth_error bind] in H.
  destruct (Shortstat.log_shortstat_parse l1) as [[[chg ins_n] del_n]| |];
    try discriminate.
  inv_bind H. inv_bind H. inv_bind H. inv_bind H. inv_bind H.
  injection H as <-. exists a1, chg, ins_n, del_n. split; [|exact Ha3].
  unfold index in Ha1. destruct (nth_error (split l0 PARAM_INTERVAL) 2);
    [injection Ha1 as ->; reflexivity | discriminate].
Qed.

Lemma update_total_count t date c n d t' :
  update_total t date c n d = Ok t' -> commit_count t' = wrap_i32 (commit_count t + 1).
Proof.
  unfold update_total. destruct (length (data_list (incr t))) as [|l].
  - intros H. injection H as <-. reflexivity.
  - intros H. inv_bind H. destruct (String.eqb a date).
    + unfold overwrite_day in H. inv_bind H. inv_bind H. inv_bind H.
      injection H as <-. reflexivity.
    + injection H as <-. reflexivity.
Qed.

Lemma run_count cs : forall st st' k,
  commit_count (total st) = wrap_i32 k -> run st cs = Ok st' ->
  commit_count (total st') = wrap_i32 (k + Z.of_nat (length (filter two_lines cs))).
Proof.
  induction cs as [|c cs IH]; intros st st' k Hk H; cbn [run] in H.
  - injection H as <-. rewrite Z.add_0_r. exact Hk.
  - inv_bind H. cbn [filter].
    destruct (step_total st c a Ha) as [[Ht ->] | [Ht (date & chg & ins & del & _ & Hu)]];
      rewrite Ht.
    + exact (IH st st' k Hk H).
    + apply update_total_count in Hu. rewrite Hk, wrap_i32_succ in Hu.
      rewrite (IH a st' (k + 1)%Z Hu H). cbn [length]. f_equal. lia.
Qed.

(** X18: the total commit count of a result counts the records with a
    header and a stat line (modulo the [i32] wrap-around); records the loop
    skips, such as merge commits without a stat line, are not counted. *)
Theorem commit_count_counts_two_line_records (br stdout : string)
  (r : BranchStatDailyContribute) :
  get_contribute_stat br stdout = Ok r ->
  commit_count (total_stat r)
  = wrap_i32 (Z.of_nat (length (filter two_lines (commits_of stdout)))).
Proof.
  unfold get_contribute_stat. intros H. inv_bind H. injection H as <-. cbn.
  exact (run_count (commits_of stdout) init a 0%Z eq_refl Ha).
Qed.

Lemma commit_count_counts_two_line_records_witness :
  match get_contribute_stat "main"
          (record "alice" "a@x" "1700000000" " 1 file changed, 2 insertions(+)"
           ++ COMMIT_INETRVAL ++ "bob" ++ PARAM_INTERVAL ++ "b@x" ++ PARAM_INTERVAL
           ++ "1700000100" ++ NL) with
  | Ok r => commit_count (total_stat r) = 1%Z
  | _ => False
  end.
Proof.
  destruct (get_contribute_stat "main"
          (record "alice" "a@x" "1700000000" " 1 file changed, 2 insertions(+)"
           ++ COMMIT_INETRVAL ++ "bob" ++ PARAM_INTERVAL ++ "b@x" ++ PARAM_INTERVAL
           ++ "1700000100" ++ NL)) as [r| |] eqn:E;
    [| vm_compute in E; discriminate | vm_compute in E; discriminate].
  rewrite (commit_count_counts_two_line_records _ _ r E). vm_compute. reflexivity.
Defined.

Lemma update_total_shape t date c n d t' :
  total_shape t -> update_total t date c n d = Ok t' -> total_shape t'.
Proof.
  unfold update_total, total_shape. intros (H1 & H2 & H3).
  destruct (length (data_list (incr t))) as [|l].
  - intros H. injection H as <-. simpl. rewrite !length_app. simpl. lia.
  - intros H. inv_bind H. destruct (String.eqb a date).
    + unfold overwrite_day in H. inv_bind H. inv_bind H. inv_bind H.
      injection H as <-. simpl.
      apply set_index_length in Ha0, Ha1, Ha2. simpl in *. lia.
    + injection H as <-. simpl. rewrite !length_app. simpl. lia.
Qed.

Lemma run_total_shape cs : forall st st',
  total_shape (total st) -> run st cs = Ok st' -> total_shape (total st').
Proof.
  induction cs as [|c cs IH]; intros st st' Hs H; cbn [run] in H.
  - injection H as <-. exact Hs.
  - inv_bind H. apply (IH a); [|exact H].
    destruct (step_total st c a Ha) as [[_ ->] | [_ (date & chg & ins & del & _ & Hu)]];
      [exact Hs | exact (update_total_shape _ _ _ _ _ _ Hs Hu)].
Qed.

(** X19: on every result, each author's stat has its four arrays of equal
    length, while the total stat has exactly two day entries per count
    entry (its three count arrays having equal lengths). *)
Theorem contribute_result_shape (br stdout : string) (r : BranchStatDailyContribute) :
  get_contribute_stat br stdout = Ok r ->
  total_shape (total_stat r) /\ Forall (fun a => parallel (stat a)) (authors_stat r).
Proof.
  intros H. split; [|exact (authors_stat_parallel br stdout r H)].
  unfold get_contribute_stat in H. inv_bind H. injection H as <-. cbn.
  apply (run_total_shape (commits_of stdout) init a); [|exact Ha].
  unfold total_shape. simpl. lia.
Qed.

Lemma contribute_result_shape_witness :
  match get_contribute_stat "main"
          (record "alice" "a@x" "1700000000" " 1 file changed, 2 insertions(+)") with
  | Ok r => total_shape (total_stat r)
  | _ => False
  end.
Proof.
  destruct (get_contribute_stat "main"
          (record "alice" "a@x" "1700000000" " 1 file changed, 2 insertions(+)"))
    as [r| |] eqn:E; [| vm_compute in E; discriminate | vm_compute in E; discriminate].
  exact (proj1 (contribute_result_shape _ _ r E)).
Defined.

(** X20: a record with a header and a stat line that [log_shortstat_parse]
    rejects ends the whole call with an error of empty message, unless an
    earlier record already failed. *)
Theorem unparsable_stat_line_aborts (br stdout : string) (cs1 cs2 : list string)
  (c l0 l1 e : string) :
  commits_of stdout = (cs1 ++ c :: cs2)%list ->
  split (trim_end_matches c NL) NL = [l0; l1] ->
  Shortstat.log_shortstat_parse l1 = Err e ->
  get_contribute_stat br stdout
  = match run init cs1 with Ok _ => Err "" | Err e' => Err e' | Panic => Panic end.
Proof.
  intros Hc Hs Hp. unfold get_contribute_stat. rewrite Hc, run_app.
  destruct (run init cs1) as [s| |]; cbn [bind]; [|reflexivity|reflexivity].
  cbn [run]. unfold step. rewrite Hs. cbn [length Nat.eqb negb index nth_error bind].
  rewrite Hp. reflexivity.
Qed.

Lemma unparsable_stat_line_aborts_witness :
  get_contribute_stat "main" (record "alice" "a@x" "1700000000" "no stat here") = Err "".
Proof.
  rewrite (unparsable_stat_line_aborts "main" (record "alice" "a@x" "1700000000" "no stat here")
             [] []
             ("alice" ++ PARAM_INTERVAL ++ "a@x" ++ PARAM_INTERVAL ++ "1700000000" ++ NL
              ++ "no stat here")
             ("alice" ++ PARAM_INTERVAL ++ "a@x" ++ PARAM_INTERVAL ++ "1700000000")
             "no stat here" "No match found!");
    [reflexivity | vm_compute; reflexivity ..].
Defined.

Lemma set_index_past {A} (l : list A) i x : length l <= i -> set_index l i x = Panic.
Proof.
  revert i. induction l as [|h t IH]; intros [|i] H; simpl in *; try reflexivity; try lia.
  rewrite IH by lia. reflexivity.
Qed.

Lemma nth_error_last {A} (l : list A) d :
  l <> [] -> nth_error l (length l - 1) = Some (last l d).
Proof.
  intros H. destruct (exists_last H) as [l' [x ->]].
  rewrite length_app, last_last. simpl. rewrite Nat.add_sub.
  rewrite nth_error_app2, Nat.sub_diag by lia. reflexivity.
Qed.

(** The total's overwrite branch always writes past the count arrays. *)
Lemma update_total_same_last t date c n d :
  total_shape t -> data_list t <> [] -> last (data_list t) "" = date ->
  update_total t date c n d = Panic.
Proof.
  intros (H1 & H2 & H3) Hne Hl. unfold update_total, incr. cbn [data_list].
  destruct (length (data_list t)) as [|l] eqn:E.
  - apply length_zero_iff_nil in E. contradiction.
  - unfold index. pose proof (nth_error_last (data_list t) "" Hne) as Hn.
    rewrite E in Hn. simpl in Hn. rewrite Nat.sub_0_r in Hn. rewrite Hn. cbn [bind].
    rewrite Hl, String.eqb_refl. unfold overwrite_day. cbn [change_files].
    rewrite set_index_past by lia. reflexivity.
Qed.

Lemma update_total_last t date c n d t' :
  update_total t date c n d = Ok t' ->
  data_list t' <> [] /\ last (data_list t') "" = date.
Proof.
  unfold update_total, incr. cbn [data_list].
  assert (Hpush : forall l, (l ++ [date; date])%list <> [] /\
                            last (l ++ [date; date])%list "" = date).
  { intros l. split.
    - intros Hn. apply app_eq_nil in Hn as [_ Hn]. discriminate.
    - replace (l ++ [date; date])%list with ((l ++ [date]) ++ [date])%list
        by (rewrite <- app_assoc; reflexivity).
      apply last_last. }
  destruct (length (data_list t)) as [|l] eqn:E.
  - intros H. injection H as <-. exact (Hpush _).
  - intros H. inv_bind H. destruct (String.eqb a date) eqn:Ed.
    + apply String.eqb_eq in Ed. subst a.
      unfold overwrite_day in H. inv_bind H. inv_bind H. inv_bind H.
      injection H as <-. cbn [data_list].
      assert (Hne : data_list t <> []) by (intros Hn; rewrite Hn in E; discriminate).
      split; [exact Hne|].
      pose proof (nth_error_last (data_list t) "" Hne) as Hn.
      rewrite E in Hn. simpl in Hn. rewrite Nat.sub_0_r in Hn.
      unfold index in Ha. rewrite Hn in Ha. injection Ha as <-. reflexivity.
    + injection H as <-. exact (Hpush _).
Qed.

(** X21: two consecutive records with a header and a stat line and the same
    timestamp, whatever their authors, make [get_contribute_stat] fail: the
    total's same-date branch writes past its count arrays. *)
Theorem same_timestamp_no_result (br stdout : string) (cs1 cs2 : list string)
  (c1 c2 d : string) :
  commits_of stdout = (cs1 ++ c1 :: c2 :: cs2)%list ->
  commit_date c1 = Some d -> commit_date c2 = Some d ->
  match get_contribute_stat br stdout with Ok _ => False | _ => True end.
Proof.
  intros Hc H1 H2. unfold get_contribute_stat. rewrite Hc, run_app.
  destruct (run init cs1) as [s1| |] eqn:E1; cbn [bind]; [|exact I|exact I].
  assert (S1 : total_shape (total s1))
    by (apply (run_total_shape cs1 init s1); [unfold total_shape; simpl; lia | exact E1]).
  cbn [run]. destruct (step s1 c1) as [s2| |] eqn:E2; cbn [bind]; [|exact I|exact I].
  destruct (step s2 c2) as [s3| |] eqn:E3; cbn [bind]; [|exact I|exact I].
  exfalso.
  destruct (step_total _ _ _ E2) as [[Ht _] | [_ (d1 & c & i & x & Hd1 & Hu1)]].
  { rewrite (commit_date_two_lines _ _ H1) in Ht. discriminate. }
  destruct (step_total _ _ _ E3) as [[Ht _] | [_ (d2 & c' & i' & x' & Hd2 & Hu2)]].
  { rewrite (commit_date_two_lines _ _ H2) in Ht. discriminate. }
  rewrite H1 in Hd1. injection Hd1 as <-. rewrite H2 in Hd2. injection Hd2 as <-.
  pose proof (update_total_shape _ _ _ _ _ _ S1 Hu1) as S2.
  destruct (update_total_last _ _ _ _ _ _ Hu1) as [Hne Hl].
  rewrite (update_total_same_last _ _ c' i' x' S2 Hne Hl) in Hu2. discriminate.
Qed.

Lemma same_timestamp_no_result_witness :
  match get_contribute_stat "main"
          (record "alice" "alice@example.com" "1700000000" " 1 file changed, 2 insertions(+)"
           ++ record "bob" "bob@example.com" "1700000000" " 3 files changed, 5 deletions(-)")
  with Ok _ => False | _ => True end.
Proof.
  apply (same_timestamp_no_result "main" _ [] []
           ("alice" ++ PARAM_INTERVAL ++ "alice@example.com" ++ PARAM_INTERVAL ++ "1700000000"
            ++ NL ++ " 1 file changed, 2 insertions(+)" ++ NL ++ NL)
           ("bob" ++ PARAM_INTERVAL ++ "bob@example.com" ++ PARAM_INTERVAL ++ "1700000000"
            ++ NL ++ " 3 files changed, 5 deletions(-)")
           "1700000000"); vm_compute; reflexivity.
Defined.

End ContributeExtraFacts.

Module LogFormatExtraFacts.
Import LogFormat LogFormatFacts StringFacts.

Definition no_err {A} (o : outcome A) : Prop :=
  match o with Err _ => False | _ => True end.

Lemma record_step_no_err km ph datas acc i :
  no_err acc -> no_err (record_step km ph datas acc i).
Proof.
  unfold record_step, index. destruct acc as [m| |]; cbn [bind]; intros H;
    [|contradiction|exact I].
  destruct (nth_error ph i); cbn [bind]; [|exact I].
  destruct (nth_error datas i); cbn [bind]; [|exact I].
  destruct (lookup km s); cbn [bind]; exact I.
Qed.

Lemma fold_no_err km ph datas l : forall acc,
  no_err acc -> no_err (fold_left (record_step km ph datas) l acc).
Proof.
  induction l as [|i l IH]; intros acc H; [exact H|].
  apply IH. apply record_step_no_err. exact H.
Qed.

Lemma record_step_unknown km ph datas acc i p :
  nth_error ph i = Some p -> lookup km p = None -> no_err acc ->
  record_step km ph datas acc i = Panic.
Proof.
  intros Hi Hl H. unfold record_step, index.
  destruct acc as [m| |]; cbn [bind]; [|contradiction|reflexivity].
  rewrite Hi. cbn [bind]. destruct (nth_error datas i); cbn [bind]; [|reflexivity].
  rewrite Hl. reflexivity.
Qed.

(** X22: a requested placeholder that the format key map does not know
    makes [get_commit_log_format] panic ([unwrap] on the failed lookup),
    whatever [git] printed: no error is returned. *)
Theorem unknown_placeholder_panics (ph : list string) (p stdout : string) :
  In p ph -> lookup get_format_key_map p = None ->
  get_commit_log_format ph stdout = Panic.
Proof.
  intros Hin Hl.
  assert (R : forall line, record_map ph line = Panic).
  { intros line. unfold record_map. apply In_nth_error in Hin as [i Hi].
    assert (Hlt : i < length ph) by (apply nth_error_Some; congruence).
    replace (length ph) with (i + S (length ph - S i)) by lia.
    rewrite seq_app, fold_left_app. cbn [Nat.add seq fold_left].
    rewrite (record_step_unknown _ _ _ _ i p Hi Hl).
    - apply fold_panic.
    - apply fold_no_err. exact I. }
  unfold get_commit_log_format.
  destruct (records_of stdout) as [|r rs] eqn:E.
  - exfalso. exact (split_nonempty _ _ E).
  - cbn [map collect]. rewrite R. reflexivity.
Qed.

Lemma unknown_placeholder_panics_witness :
  get_commit_log_format ["%H"; "%x"] ("abc" ++ PARAM_INTERVAL ++ "def") = Panic.
Proof.
  apply (unknown_placeholder_panics _ "%x"); [right; left; reflexivity | reflexivity].
Defined.

(** The keys of a record map: no key twice, each a name of the key map. *)
Definition keys_ok (m : list (string * string)) : Prop :=
  NoDup (map fst m) /\ Forall (fun k => In k (map snd get_format_key_map)) (map fst m).

Lemma insert_keys m k v :
  map fst (insert m k v) = map fst m \/
  (map fst (insert m k v) = (map fst m ++ [k])%list /\ ~ In k (map fst m)).
Proof.
  induction m as [|[k' v'] m IH]; simpl.
  - right. split; [reflexivity | intros []].
  - destruct (String.eqb k k') eqn:E; simpl; [left; reflexivity|].
    apply String.eqb_neq in E.
    destruct IH as [IH | [IH Hn]]; rewrite IH; [left; reflexivity|].
    right. split; [reflexivity|]. intros [H|H]; [congruence | contradiction].
Qed.

Lemma lookup_in km p k : lookup km p = Some k -> In k (map snd km).
Proof.
  induction km as [|[p' k'] km IH]; simpl; [discriminate|].
  destruct (String.eqb p p'); [intros H; injection H as ->; left; reflexivity|].
  intros H. right. exact (IH H).
Qed.

Lemma insert_keys_ok m k v :
  keys_ok m -> In k (map snd get_format_key_map) -> keys_ok (insert m k v).
Proof.
  intros [Hd Hf] Hk. unfold keys_ok; destruct (insert_keys m k v) as [E | [E Hn]]; rewrite E.
  - split; assumption.
  - split.
    + apply NoDup_app; [exact Hd | repeat constructor; intros [] |].
      intros x Hx [<-|[]]. contradiction.
    + apply Forall_app. split; [exact Hf | constructor; [exact Hk | constructor]].
Qed.

Lemma fold_keys_ok ph datas l : forall acc m,
  (forall m0, acc = Ok m0 -> keys_ok m0) ->
  fold_left (record_step get_format_key_map ph datas) l acc = Ok m -> keys_ok m.
Proof.
  induction l as [|i l IH]; intros acc m Hacc H; [exact (Hacc m H)|].
  cbn [fold_left] in H. apply (IH (record_step get_format_key_map ph datas acc i) m); [|exact H].
  intros m1 Hm1. unfold record_step in Hm1.
  inv_bind Hm1. inv_bind Hm1. inv_bind Hm1. inv_bind Hm1. injection Hm1 as <-.
  apply insert_keys_ok; [exact (Hacc a Ha)|].
  destruct (lookup get_format_key_map a0) as [k|] eqn:E; [|discriminate].
  injection Ha2 as <-. exact (lookup_in _ _ _ E).
Qed.

Lemma collect_map_forall {A B} (f : A -> outcome B) (P : B -> Prop) l rs :
  (forall x r, f x = Ok r -> P r) -> collect (map f l) = Ok rs -> Forall P rs.
Proof.
  intros Hf. revert rs. induction l as [|x l IH]; intros rs H; cbn [map collect] in H.
  - injection H as <-. constructor.
  - inv_bind H. inv_bind H. injection H as <-. constructor; [exact (Hf _ _ Ha) | exact (IH _ Ha0)].
Qed.

(** X23: in every record map returned by [get_commit_log_format], no key
    appears twice (a placeholder given twice yields one key, holding the
    later field) and every key is one of the names of the format key map. *)
Theorem log_format_record_keys (ph : list string) (stdout : string)
  (recs : list (list (string * string))) :
  get_commit_log_format ph stdout = Ok recs ->
  Forall (fun m => NoDup (map fst m) /\
                   Forall (fun k => In k (map snd get_format_key_map)) (map fst m)) recs.
Proof.
  unfold get_commit_log_format. apply collect_map_forall.
  intros line m H. unfold record_map in H.
  refine (fold_keys_ok _ _ _ _ _ _ H). intros m0 Hm0. injection Hm0 as <-.
  split; constructor.
Qed.

Lemma log_format_record_keys_witness :
  match get_commit_log_format ["%H"; "%an"; "%H"]
          ("abc" ++ PARAM_INTERVAL ++ "alice" ++ PARAM_INTERVAL ++ "def") with
  | Ok recs => recs = [[("hashL", "def"); ("authorName", "alice")]] /\
               Forall (fun m => NoDup (map fst m)) recs
  | _ => False
  end.
Proof.
  destruct (get_commit_log_format ["%H"; "%an"; "%H"]
              ("abc" ++ PARAM_INTERVAL ++ "alice" ++ PARAM_INTERVAL ++ "def"))
    as [recs| |] eqn:E; [| vm_compute in E; discriminate | vm_compute in E; discriminate].
  split; [vm_compute in E; injection E as <-; reflexivity|].
  refine (Forall_impl _ _ (log_format_record_keys _ _ _ E)). intros m [Hm _]. exact Hm.
Defined.

End LogFormatExtraFacts.

Module FileTreeExtraFacts.
Import FileTree FileTreeFacts StringFacts.

(** The [dir] field of a node. *)
Definition node_dir (n : RepoFileInfo) : string :=
  let '(mkRepoFileInfo _ y _ _ _ _ _ _) := n in y.

(** The [dir] a node gets below the segments [walked]: ["./"] at the root,
    else the segments joined with ['/']. *)
Definition dir_of (walked : list string) : string :=
  match walked with [] => "./" | _ => String.concat "/" walked end.

(** Each node's [dir] is the path of its parent, all the way down. *)
Fixpoint dirs_ok (walked : list string) (n : RepoFileInfo) : bool :=
  let '(mkRepoFileInfo x y _ _ _ _ _ c) := n in
  String.eqb y (dir_of walked) &&
  (fix go (l : list RepoFileInfo) : bool :=
     match l with [] => true | t :: l' => dirs_ok (walked ++ [x]) t && go l' end) c.

Lemma dirs_ok_eq walked n :
  dirs_ok walked n = String.eqb (node_dir n) (dir_of walked)
                     && forallb (dirs_ok (walked ++ [name n])) (children n).
Proof. destruct n as [x y m t o s d c]. reflexivity. Qed.

Lemma position_name (l : list RepoFileInfo) seg i :
  position l seg = Some i -> exists n, nth_error l i = Some n /\ name n = seg.
Proof.
  revert i. induction l as [|h l IH]; intros i H; simpl in H; [discriminate|].
  destruct (String.eqb (name h) seg && is_dir h) eqn:E.
  - injection H as <-. apply andb_prop in E as [E _]. apply String.eqb_eq in E.
    exists h. split; auto.
  - destruct (position l seg) as [j|] eqn:Ej; simpl in H; [|discriminate].
    injection H as <-. apply (IH j eq_refl).
Qed.

Lemma modify_nth_forallb (P : RepoFileInfo -> bool) i f (l : list RepoFileInfo) :
  (forall n, nth_error l i = Some n -> P n = true -> P (f n) = true) ->
  forallb P l = true -> forallb P (modify_nth i f l) = true.
Proof.
  revert i. induction l as [|h l IH]; intros [|i] Hf Hl; simpl in *; auto;
    apply andb_prop in Hl as [Hh Hl].
  - rewrite (Hf h eq_refl Hh), Hl. reflexivity.
  - rewrite Hh. apply IH; assumption.
Qed.

Lemma insert_segs_dirs m t o s segs : forall walked l,
  forallb (dirs_ok walked) l = true ->
  forallb (dirs_ok walked) (insert_segs m t o s walked segs l) = true.
Proof.
  induction segs as [|seg rest IH]; intros walked l Hl; simpl; [exact Hl|].
  destruct (position l seg) as [i|] eqn:Hp.
  - apply modify_nth_forallb; [|exact Hl].
    intros n Hn Hw. destruct (position_name l seg i Hp) as [n' [Hn' Hname]].
    rewrite Hn in Hn'. injection Hn' as <-.
    rewrite dirs_ok_eq in Hw |- *. apply andb_prop in Hw as [Hd Hc].
    destruct n as [x y m' t' o' s' d' c']. cbn [set_children node_dir name children] in *.
    subst x. rewrite Hd. cbn [andb]. apply IH. exact Hc.
  - assert (Hdir : String.eqb (match walked with [] => "./" | _ => String.concat "/" walked end)
                              (dir_of walked) = true) by apply String.eqb_refl.
    destruct (_ || _) eqn:Hd; rewrite forallb_app, Hl; cbn [andb forallb].
    + cbn [set_children]. rewrite dirs_ok_eq. cbn [node_dir name children].
      rewrite Hdir, (IH _ [] eq_refl). reflexivity.
    + rewrite dirs_ok_eq. cbn [node_dir name children]. rewrite Hdir. reflexivity.
Qed.

Lemma add_line_dirs (l : list RepoFileInfo) line :
  forallb (dirs_ok []) l = true -> forallb (dirs_ok []) (add_line l line) = true.
Proof.
  intros Hl. unfold add_line.
  destruct (split line PARAM_INTERVAL) as [|m [|t [|sz [|nm [|p [|]]]]]];
    try exact Hl.
  destruct (Nat.ltb 1 _).
  - apply insert_segs_dirs. exact Hl.
  - rewrite forallb_app, Hl. reflexivity.
Qed.

(** X24: in the tree built by [file_info_list_to_tree], every node's [dir]
    field is the path of the directory holding it: ["./"] for the nodes of
    the root list, and the names of the enclosing directories joined with
    ['/'] below. *)
Theorem tree_dirs_are_parent_paths (lines : list string) :
  forallb (dirs_ok []) (file_info_list_to_tree lines) = true.
Proof.
  unfold file_info_list_to_tree.
  assert (G : forall l acc, forallb (dirs_ok []) acc = true ->
                forallb (dirs_ok []) (fold_left add_line l acc) = true).
  { induction l as [|x l IH]; intros acc H; [exact H|].
    apply IH. apply add_line_dirs. exact H. }
  apply G. reflexivity.
Qed.

(** A field [git] prints without the separator and without a line break. *)
Definition field_ok (x : string) : bool :=
  no_char "<"%char x && no_char (ascii_of_nat 10) x.

(** X25: the format of [get_repo_file_list] reaches [git] with its double
    quotes, so each line is wrapped in them: for a file at the top of the
    tree, the mode read starts with a quote and the path ends with one, and
    the node is never a directory, whatever the mode. *)
Theorem repo_file_list_quoted (m t nm sz p : string) :
  field_ok m = true -> field_ok t = true -> field_ok nm = true ->
  field_ok sz = true -> field_ok p = true -> no_char "/"%char p = true ->
  RepoFiles.get_repo_file_list (RepoFiles.quoted_ls_tree_line m t nm sz p ++ NL)
  = [mkRepoFileInfo (p ++ DQ) "./" (DQ ++ m) t nm (trim sz) false []].
Proof.
  unfold field_ok. intros Hm Ht Hn Hs Hp Hsl.
  apply andb_prop in Hm as [Hm Hm']. apply andb_prop in Ht as [Ht Ht'].
  apply andb_prop in Hn as [Hn Hn']. apply andb_prop in Hs as [Hs Hs'].
  apply andb_prop in Hp as [Hp Hp'].
  unfold RepoFiles.get_repo_file_list, RepoFiles.quoted_ls_tree_line.
  change ((DQ ++ ls_tree_line m t nm sz p ++ DQ) ++ NL)
    with ("" ++ (DQ ++ ls_tree_line m t nm sz p ++ DQ) ++ NL).
  rewrite trim_padded;
    [| reflexivity | reflexivity | reflexivity
     | repeat apply ShortstatExtraFacts.rev_end; reflexivity].
  assert (Hline : DQ ++ ls_tree_line m t nm sz p ++ DQ
                  = (DQ ++ m) ++ PARAM_INTERVAL ++ t ++ PARAM_INTERVAL ++ sz ++ PARAM_INTERVAL
                    ++ nm ++ PARAM_INTERVAL ++ (p ++ DQ))
    by (unfold ls_tree_line; rewrite !str_app_assoc; reflexivity).
  rewrite Hline.
  unfold NL. rewrite split_no_char.
  2: { unfold no_char in *. rewrite !all_chars_app, Hm', Ht', Hn', Hs', Hp'. reflexivity. }
  unfold file_info_list_to_tree. cbn [fold_left]. unfold add_line, PARAM_INTERVAL.
  unfold no_char in *.
  rewrite !split_app_sep by (rewrite ?all_chars_app; first [assumption | rewrite Hm; reflexivity]).
  rewrite split_no_char by (unfold no_char; rewrite all_chars_app, Hp; reflexivity).
  rewrite split_no_char by (unfold no_char; rewrite all_chars_app, Hsl; reflexivity).
  reflexivity.
Qed.

Lemma repo_file_list_quoted_witness :
  RepoFiles.get_repo_file_list
    (RepoFiles.quoted_ls_tree_line "040000" "tree" "abc" "-" "src" ++ NL)
  = [mkRepoFileInfo ("src" ++ DQ) "./" (DQ ++ "040000") "tree" "abc" "-" false []].
Proof. apply repo_file_list_quoted; reflexivity. Defined.

End FileTreeExtraFacts.
